(** * JavSP smart monitor: a shallow embedding of [smart_monitor.py]

    The development follows
    [network-deployment/scripts/monitoring/smart_monitor.py]: the
    configuration store ([load_config]), the file scanner
    ([scan_for_new_files], [add_to_queue]), the stability gate
    ([is_file_stable] and the confirmation loop of [process_file]), the
    worker ([process_file], [process_queue]), the fingerprint
    ([calculate_file_hash]) and the state store ([save_state],
    [load_state]).

    Python dicts are finite maps [gmap string json], the completed-file
    set is a [gset string], the processing queue is a list of job records
    whose positions stand for the identity of the job objects.  Time is a
    logical clock; what the operating system answers (file attributes,
    file contents, the directory walk, the external command, the shutdown
    flag) is read from an environment record indexed by that clock. *)

From Stdlib Require Import ZArith Lia Ascii.
From stdpp Require Import gmap strings list fin_maps.

Local Open Scope Z_scope.

(** ** JSON documents, as [json.load] decodes them

    Numbers are integers: the durations that the source keeps as float
    seconds are counted in clock ticks (see [ticks_per_second]).  A
    string is a sequence of characters, one [ascii] for each (the
    characters below 256). *)

#[warnings="-register-all"]
Inductive json : Type :=
  | JNull
  | JBool (b : bool)
  | JNum (z : Z)
  | JStr (s : string)
  | JArr (l : list json)
  | JObj (m : gmap string json).

(** Python truthiness of a decoded value ([if not self.config[...]]). *)
Definition truthy (j : json) : bool :=
  match j with
  | JNull => false
  | JBool b => b
  | JNum z => negb (z =? 0)
  | JStr s => negb (String.eqb s "")
  | JArr l => negb (bool_decide (length l = 0%nat))
  | JObj m => negb (bool_decide (m = ∅))
  end.

(** [d.update(other)] for a decoded value [other].  A mapping overwrites
    key by key; a value that is not iterable raises [TypeError] before
    anything is written; a string is walked character by character and
    its first character already fails the "pair" test ([ValueError]), the
    empty string changes nothing.  A list is walked element by element:
    each element has to be a sequence of two values, the first of them
    hashable, and is written as key and value; the elements written
    before one that fails stay written.

    The tables of the model have strings as keys.  Two kinds of element
    are therefore left outside it: one whose key is a number, a bool or
    [null], and a mapping of two keys (its "pair" is its two keys in
    insertion order, which a finite map does not record). *)
Inductive update_result : Type :=
  | Updated (d : gmap string json)
  | UpdateRaises (d : gmap string json)
  | UpdateOutsideModel.

(** One element of the sequence, read as a pair. *)
Inductive pair_reading : Type :=
  | Pair (k : string) (v : json)
  | NoPair
  | PairOutsideModel.

Definition as_pair (item : json) : pair_reading :=
  match item with
  | JArr [JStr k; v] => Pair k v
  | JArr [JArr _; _] | JArr [JObj _; _] => NoPair
  | JArr [_; _] => PairOutsideModel
  | JArr _ => NoPair
  | JStr (String a (String b EmptyString)) =>
      Pair (String a EmptyString) (JStr (String b EmptyString))
  | JStr _ => NoPair
  | JObj m => if bool_decide (size m = 2%nat) then PairOutsideModel else NoPair
  | JNull | JBool _ | JNum _ => NoPair
  end.

Fixpoint update_pairs (d : gmap string json) (items : list json) : update_result :=
  match items with
  | [] => Updated d
  | item :: rest =>
      match as_pair item with
      | Pair k v => update_pairs (<[k := v]> d) rest
      | NoPair => UpdateRaises d
      | PairOutsideModel => UpdateOutsideModel
      end
  end.

Definition dict_update (d : gmap string json) (other : json) : update_result :=
  match other with
  | JObj u => Updated (u ∪ d)
  | JNull | JBool _ | JNum _ => UpdateRaises d
  | JStr s => if String.eqb s "" then Updated d else UpdateRaises d
  | JArr items => update_pairs d items
  end.

(** A sufficient test for [dict_update] to stay inside the model: no
    element of a list is one of the two kinds left outside. *)
Definition pairs_modelled (other : json) : bool :=
  match other with
  | JArr items =>
      forallb (λ item, match as_pair item with
                       | PairOutsideModel => false
                       | _ => true
                       end) items
  | _ => true
  end.

(** A list of [[key, value]] pairs as a document, and the table after
    the pairs have been written one after the other. *)
Definition pair_items (pairs : list (string * json)) : list json :=
  (λ kv, JArr [JStr kv.1; kv.2]) <$> pairs.

Definition write_pairs (d : gmap string json) (pairs : list (string * json))
  : gmap string json :=
  foldl (λ acc kv, <[kv.1 := kv.2]> acc) d pairs.

(** ** Config Store *)

Definition default_video_extensions : list string :=
  [".mp4"; ".mkv"; ".avi"; ".mov"; ".wmv";
   ".flv"; ".m4v"; ".m2ts"; ".ts"; ".vob";
   ".iso"; ".rmvb"; ".rm"; ".3gp"; ".f4v";
   ".webm"; ".strm"; ".mpg"; ".mpeg"].

Definition default_config : gmap string json :=
  {[ "input_directory" := JStr "/app/input";
     "output_directory" := JStr "/app/output";
     "log_file" := JStr "/app/logs/monitor.log";
     "state_file" := JStr "/app/logs/monitor_state.json";
     "video_extensions" := JArr (JStr <$> default_video_extensions);
     "min_file_size_mb" := JNum 200;
     "stability_check_interval" := JNum 10;
     "stability_check_count" := JNum 3;
     "max_processing_time" := JNum 3600;
     "check_interval" := JNum 60;
     "enable_hash_check" := JBool true;
     "cleanup_days" := JNum 7 ]}.

(** What [load_config] finds at [config_path]: no file
    ([os.path.exists] is false), a file that [open] or [json.load]
    rejects, or a decoded document. *)
Inductive config_file : Type :=
  | NoConfigFile
  | ConfigUnreadable
  | ConfigDocument (j : json).

(** [load_config], with the table of defaults as a parameter.  The
    result is [None] only for the documents [dict_update] leaves outside
    the model.  An exception inside the [try] keeps [default_config] as
    it stands at that point. *)
Definition load_config_over (defaults : gmap string json) (f : config_file)
  : option (gmap string json) :=
  match f with
  | NoConfigFile => Some defaults
  | ConfigUnreadable => Some defaults
  | ConfigDocument user_config =>
      match dict_update defaults user_config with
      | Updated d => Some d
      | UpdateRaises d => Some d
      | UpdateOutsideModel => None
      end
  end.

Definition load_config (f : config_file) : option (gmap string json) :=
  load_config_over default_config f.

(** The recursive overlay as the specification words it: a key of the
    user document replaces the default at that position, two mappings at
    the same position are merged key by key, anything else is replaced
    entirely. *)
Fixpoint overlay_value (dv uv : json) {struct dv} : json :=
  match dv, uv with
  | JObj dm, JObj um =>
      JObj (map_imap (λ k v, Some (match um !! k with
                                   | Some uv' => overlay_value v uv'
                                   | None => v
                                   end)) dm ∪ um)
  | _, _ => uv
  end.

Definition recursive_overlay (d u : gmap string json) : gmap string json :=
  map_imap (λ k v, Some (match u !! k with
                         | Some uv => overlay_value v uv
                         | None => v
                         end)) d ∪ u.

Definition is_mapping (j : json) : bool :=
  match j with JObj _ => true | _ => false end.

(** No value of the table is itself a mapping. *)
Definition flat (d : gmap string json) : Prop :=
  ∀ k v, d !! k = Some v → is_mapping v = false.

(** Reading one level below the top: [j[k]] for a mapping [j]. *)
Definition jget (k : string) (j : json) : option json :=
  match j with JObj m => m !! k | _ => None end.

(** The typed reading of a configuration: the entries the monitor uses,
    at the types the code uses them.  [settings_of] is [None] for a table
    whose entries have other JSON types (the source would raise at the
    first use of such an entry). *)
Record settings : Type := {
  input_directory : string;
  state_file : string;
  video_extensions : list string;
  min_file_size_mb : Z;
  stability_check_interval : Z;
  stability_check_count : Z;
  check_interval : Z;
  enable_hash_check : bool
}.

(** Only strings of the list can compare equal to a suffix. *)
Definition strings_of (l : list json) : list string :=
  omap (λ j, match j with JStr s => Some s | _ => None end) l.

Definition settings_of (c : gmap string json) : option settings :=
  match c !! "input_directory", c !! "state_file", c !! "video_extensions",
        c !! "min_file_size_mb", c !! "stability_check_interval",
        c !! "stability_check_count", c !! "check_interval",
        c !! "enable_hash_check" with
  | Some (JStr inp), Some (JStr st), Some (JArr exts), Some (JNum mb),
    Some (JNum itv), Some (JNum cnt), Some (JNum chk), Some flag =>
      Some {| input_directory := inp; state_file := st;
              video_extensions := strings_of exts;
              min_file_size_mb := mb; stability_check_interval := itv;
              stability_check_count := cnt; check_interval := chk;
              enable_hash_check := truthy flag |}
  | _, _, _, _, _, _, _, _ => None
  end.

(** ** The operating system, as the monitor sees it *)

(** The clock counts ticks; a second of [time.sleep] is this many. *)
Definition ticks_per_second : Z := 1000.

(** [os.stat(path)]: the two attributes the monitor reads. *)
Record stat_result : Type := { st_size : Z; st_mtime : Z }.

#[global] Instance stat_result_eq_dec : EqDecision stat_result.
Proof. solve_decision. Defined.

(** How one run of the external command ends: it exits with a return
    code after some time, or starting or reading it raises. *)
Inductive proc_result : Type :=
  | Exited (returncode : Z) (duration : N)
  | InvocationRaises.

Record os_env : Type := {
  (** attributes of a path at an instant, [None] for [OSError] *)
  fs_stat : Z → string → option stat_result;
  (** content of a file at an instant, [None] when it cannot be read *)
  fs_read : Z → string → option (list Byte.byte);
  (** [input_dir.rglob('*')] at an instant, each path with [is_file()];
      [None] when the input directory does not exist *)
  rglob : Z → option (list (string * bool));
  (** time taken by the n-th system call beyond what it asks for *)
  lag : nat → N;
  (** [self.is_running] at an instant (the signal handler clears it) *)
  keep_running : Z → bool;
  (** the external command, started at an instant *)
  javsp : Z → proc_result;
  (** [hashlib.md5(data).hexdigest()] *)
  md5_hexdigest : list Byte.byte → string;
  (** [datetime.isoformat()] *)
  isoformat : Z → string;
  (** whether [datetime.fromtimestamp] accepts a time stamp; it raises
      for one that falls outside the years 1 to 9999 of the local
      calendar, or beyond what the platform converts *)
  fromtimestamp_ok : Z → bool
}.

(** The worker's position in time: the instant and the number of system
    calls made so far. *)
Record clock : Type := { now : Z; ops : nat }.

Inductive exn : Type := ValueError | TypeError | OverflowError.

Inductive result (A : Type) : Type :=
  | Ok (a : A)
  | Raise (e : exn).
Arguments Ok {A} a.
Arguments Raise {A} e.

(** ** Jobs and the monitor's state *)

Inductive job_status : Type := pending | processing | completed | failed.

#[global] Instance job_status_eq_dec : EqDecision job_status.
Proof. solve_decision. Defined.

Record ProcessingJob : Type := {
  file_path : string;
  size : Z;
  detected_time : Z;
  last_modified : Z;
  hash_md5 : option string;
  status : job_status
}.

Definition set_status (s : job_status) (j : ProcessingJob) : ProcessingJob :=
  {| file_path := file_path j; size := size j;
     detected_time := detected_time j; last_modified := last_modified j;
     hash_md5 := hash_md5 j; status := s |}.

Definition set_hash (h : option string) (j : ProcessingJob) : ProcessingJob :=
  {| file_path := file_path j; size := size j;
     detected_time := detected_time j; last_modified := last_modified j;
     hash_md5 := h; status := status j |}.

Record JavSPMonitor : Type := {
  processing_queue : list ProcessingJob;
  completed_files : gset string;
  current_job : option ProcessingJob;
  stats : gmap string json
}.

Definition initial_stats : gmap string json :=
  {[ "files_processed" := JNum 0;
     "files_failed" := JNum 0;
     "total_processing_time" := JNum 0;
     "last_activity" := JNull ]}.

(** The state [__init__] builds. *)
Definition initial_monitor : JavSPMonitor :=
  {| processing_queue := []; completed_files := ∅;
     current_job := None; stats := initial_stats |}.

Definition with_queue (q : list ProcessingJob) (m : JavSPMonitor) : JavSPMonitor :=
  {| processing_queue := q; completed_files := completed_files m;
     current_job := current_job m; stats := stats m |}.

Definition with_completed (s : gset string) (m : JavSPMonitor) : JavSPMonitor :=
  {| processing_queue := processing_queue m; completed_files := s;
     current_job := current_job m; stats := stats m |}.

Definition with_current (j : option ProcessingJob) (m : JavSPMonitor) : JavSPMonitor :=
  {| processing_queue := processing_queue m;
     completed_files := completed_files m;
     current_job := j; stats := stats m |}.

Definition with_stats (s : gmap string json) (m : JavSPMonitor) : JavSPMonitor :=
  {| processing_queue := processing_queue m;
     completed_files := completed_files m;
     current_job := current_job m; stats := s |}.

(** [v += n] on a decoded value: numbers add, a bool counts as 0 or 1,
    anything else raises [TypeError] ([None]). *)
Definition py_add (v : json) (n : Z) : option json :=
  match v with
  | JNum z => Some (JNum (z + n))
  | JBool b => Some (JNum (Z.b2z b + n))
  | _ => None
  end.

(** [stats[key] += n]; [None] when it raises. *)
Definition stats_add (key : string) (n : Z) (s : gmap string json)
  : option (gmap string json) :=
  v ← s !! key; v' ← py_add v n; Some (<[key := v']> s).

(** ** Paths: [Path(p).suffix.lower()] on ASCII strings *)

(** The text after the last occurrence of [c], when [c] occurs. *)
Fixpoint after_last (c : Ascii.ascii) (s : string) : option string :=
  match s with
  | EmptyString => None
  | String a rest =>
      match after_last c rest with
      | Some t => Some t
      | None => if Ascii.eqb a c then Some rest else None
      end
  end.

(** The stretches of a path between its slashes. *)
Fixpoint split_path (p : string) : list string :=
  match p with
  | EmptyString => [EmptyString]
  | String a rest =>
      if Ascii.eqb a "/"%char then EmptyString :: split_path rest
      else match split_path rest with
           | [] => [String a EmptyString]
           | part :: parts => String a part :: parts
           end
  end.

(** A stretch that [Path(p)] keeps as a component: it drops the empty
    ones (doubled and trailing slashes) and the single dots. *)
Definition is_component (part : string) : bool :=
  negb (String.eqb part "") && negb (String.eqb part ".").

(** [Path(p).name]: the final component, the empty string when there is
    none. *)
Definition path_name (p : string) : string :=
  default "" (last (filter (λ part, Is_true (is_component part)) (split_path p))).

(** [name[i:]] for the last dot at [i] when [0 < i < len(name) - 1],
    the empty string otherwise. *)
Definition suffix (p : string) : string :=
  let name := path_name p in
  match after_last "."%char name with
  | Some ext =>
      let i := (String.length name - String.length ext - 1)%nat in
      if bool_decide (0 < i)%nat && bool_decide (i < String.length name - 1)%nat
      then String "."%char ext else ""
  | None => ""
  end.

Definition ascii_lower (a : Ascii.ascii) : Ascii.ascii :=
  let n := Ascii.N_of_ascii a in
  if ((65 <=? n) && (n <=? 90))%N then Ascii.ascii_of_N (n + 32) else a.

Fixpoint lower (s : string) : string :=
  match s with
  | EmptyString => EmptyString
  | String a rest => String (ascii_lower a) (lower rest)
  end.

(** ** Fingerprint: the bytes [calculate_file_hash] feeds to MD5 *)

#[warnings="-abstract-large-number"]
Definition chunk_size : nat := 8192.
Definition max_read : nat := 1024 * 1024.

(** [f.read(n)] at position [pos]: up to [n] bytes, fewer only at the
    end of the file. *)
Definition f_read (content : list Byte.byte) (pos n : nat) : list Byte.byte :=
  take n (drop pos content).

(** The first loop: chunks of at most [chunk_size] until [limit] bytes
    are read or the file ends.  Returns what was hashed. *)
Fixpoint read_head (fuel : nat) (limit : nat) (content : list Byte.byte)
    (pos total_read : nat) (hashed : list Byte.byte) : list Byte.byte :=
  match fuel with
  | O => hashed
  | S fuel' =>
      if bool_decide (total_read < limit)%nat then
        let chunk := f_read content pos (chunk_size `min` (limit - total_read)) in
        match chunk with
        | [] => hashed
        | _ :: _ =>
            read_head fuel' limit content (pos + length chunk)
              (total_read + length chunk) (hashed ++ chunk)
        end
      else hashed
  end.

(** The second loop: chunks of [chunk_size] from [pos] to the end. *)
Fixpoint read_tail (fuel : nat) (content : list Byte.byte) (pos : nat)
    (hashed : list Byte.byte) : list Byte.byte :=
  match fuel with
  | O => hashed
  | S fuel' =>
      match f_read content pos chunk_size with
      | [] => hashed
      | chunk => read_tail fuel' content (pos + length chunk) (hashed ++ chunk)
      end
  end.

(** Everything fed to the hash object for a file with this content, the
    read limit as a parameter.  [os.path.getsize] is the length of the
    content: the file is not written while it is read.  Each turn of
    either loop consumes at least one byte, so the length of the content
    bounds the number of turns. *)
Definition hashed_bytes_upto (limit : nat) (content : list Byte.byte) : list Byte.byte :=
  let fuel := S (length content) in
  let head := read_head fuel limit content 0 0 [] in
  let seek_pos := (length content - (limit `min` length content))%nat in
  read_tail fuel content seek_pos head.

Definition hashed_bytes (content : list Byte.byte) : list Byte.byte :=
  hashed_bytes_upto max_read content.

(** The first whole number of seconds [time.sleep] cannot convert:
    2^63 nanoseconds is a little under it. *)
Definition sleep_limit : Z := 9223372037.

(** ** The monitor's methods *)

Section Monitor.

Variable E : os_env.
Variable cfg : settings.

(** One system call goes by: the clock moves by its lag. *)
Definition elapse (c : clock) : clock :=
  {| now := now c + Z.of_N (lag E (ops c)); ops := S (ops c) |}.

(** [os.stat(path)]; [None] stands for [OSError]. *)
Definition os_stat (path : string) (c : clock) : option stat_result * clock :=
  let c' := elapse c in (fs_stat E (now c') path, c').

(** [time.sleep(secs)]: the length is first converted to nanoseconds in
    a signed 64-bit integer, which raises [OverflowError] from
    [sleep_limit] seconds on, in either direction; a negative length
    that converts raises [ValueError]; otherwise at least [secs] seconds
    go by. *)
Definition sleep_error (secs : Z) : option exn :=
  if (secs <=? - sleep_limit) || (sleep_limit <=? secs) then Some OverflowError
  else if secs <? 0 then Some ValueError
  else None.

Definition time_sleep (secs : Z) (c : clock) : result unit * clock :=
  match sleep_error secs with
  | Some e => (Raise e, c)
  | None => (Ok tt, elapse {| now := now c + secs * ticks_per_second; ops := ops c |})
  end.

Definition is_video_file (file_path : string) : bool :=
  let ext := lower (suffix file_path) in
  bool_decide (ext ∈ video_extensions cfg).

(** [calculate_file_hash] on what [open] finds: [None] when fingerprints
    are switched off and when the file cannot be read. *)
Definition calculate_file_hash_of (file : option (list Byte.byte)) : option string :=
  if negb (enable_hash_check cfg) then None
  else match file with
       | None => None
       | Some content => Some (md5_hexdigest E (hashed_bytes content))
       end.

Definition calculate_file_hash (file_path : string) (c : clock) : option string :=
  calculate_file_hash_of (fs_read E (now c) file_path).

(** [is_file_stable]: two samples one sleep apart.  [OSError] from either
    [os.stat] is caught and answers [False]; the exception of
    [time.sleep] is not caught here. *)
Definition is_file_stable (file_path : string) (c : clock) : result bool * clock :=
  match os_stat file_path c with
  | (None, c1) => (Ok false, c1)
  | (Some stat1, c1) =>
      match time_sleep (stability_check_interval cfg) c1 with
      | (Raise e, c2) => (Raise e, c2)
      | (Ok _, c2) =>
          match os_stat file_path c2 with
          | (None, c3) => (Ok false, c3)
          | (Some stat2, c3) =>
              (Ok ((st_size stat1 =? st_size stat2)
                   && (st_mtime stat1 =? st_mtime stat2)
                   && (min_file_size_mb cfg * 1024 * 1024 <=? st_size stat1)),
               c3)
          end
      end
  end.

(** How the confirmation loop of [process_file] ends. *)
Inductive gate_outcome : Type :=
  | Ready
  | Cancelled
  | GateRaises (e : exn).

(** The [while stability_checks < stability_check_count] loop, started
    with the counter at [stability_checks].  [None]: the loop is still
    turning when the fuel runs out. *)
Fixpoint stability_loop (fuel : nat) (file_path : string)
    (stability_checks : Z) (c : clock) : option (gate_outcome * clock) :=
  if stability_checks <? stability_check_count cfg then
    match fuel with
    | O => None
    | S fuel' =>
        match is_file_stable file_path c with
        | (Raise e, c') => Some (GateRaises e, c')
        | (Ok stable, c') =>
            let stability_checks' :=
              if stable then stability_checks + 1 else 0 in
            if negb (keep_running E (now c')) then Some (Cancelled, c')
            else stability_loop fuel' file_path stability_checks' c'
        end
    end
  else Some (Ready, c).

(** *** Scanner *)

Definition in_queue (path : string) (q : list ProcessingJob) : bool :=
  bool_decide (path ∈ file_path <$> q).

(** [scan_for_new_files] at an instant: regular files with a video
    suffix that are neither completed nor in the queue. *)
Definition scan_for_new_files (m : JavSPMonitor) (t : Z) : list string :=
  match rglob E t with
  | None => []
  | Some entries =>
      (filter (λ e, Is_true (e.2 && is_video_file e.1
                             && negb (bool_decide (e.1 ∈ completed_files m))
                             && negb (in_queue e.1 (processing_queue m))))
              entries).*1
  end.

Definition new_job (file_path : string) (st : stat_result) (t : Z) : ProcessingJob :=
  {| file_path := file_path; size := st_size st; detected_time := t;
     last_modified := st_mtime st; hash_md5 := None; status := pending |}.

(** [add_to_queue]: no test on what the queue holds, no return value.
    The job is built inside the [try]: a path that cannot be stat'ed,
    and one whose modification time [datetime.fromtimestamp] refuses, is
    logged and not added. *)
Definition add_to_queue (file_path : string) (m : JavSPMonitor) (c : clock)
  : JavSPMonitor * clock :=
  match os_stat file_path c with
  | (None, c') => (m, c')
  | (Some st, c') =>
      if fromtimestamp_ok E (st_mtime st)
      then (with_queue (processing_queue m ++ [new_job file_path st (now c')]) m, c')
      else (m, c')
  end.

(** The [for file_path in new_files: self.add_to_queue(file_path)] loop. *)
Fixpoint add_all (new_files : list string) (m : JavSPMonitor) (c : clock)
  : JavSPMonitor * clock :=
  match new_files with
  | [] => (m, c)
  | p :: rest => let '(m', c') := add_to_queue p m c in add_all rest m' c'
  end.

(** The scan-and-enqueue part of one turn of [run]'s loop. *)
Definition scan_and_enqueue (m : JavSPMonitor) (c : clock) : JavSPMonitor * clock :=
  add_all (scan_for_new_files m (now c)) m c.

(** *** Worker *)

(** The [except Exception] clause of [process_file], followed by the
    [finally]: the job is marked failed and the failure counted; when
    counting raises, the exception leaves [process_file]. *)
Definition record_failure (job : ProcessingJob) (m : JavSPMonitor)
  : result bool * ProcessingJob * JavSPMonitor :=
  let job' := set_status failed job in
  match stats_add "files_failed" 1 (stats m) with
  | Some s => (Ok false, job', with_current None (with_stats s m))
  | None => (Raise TypeError, job', with_current None m)
  end.

(** The branch for return code 0. *)
Definition record_success (job : ProcessingJob) (process_time : Z) (m : JavSPMonitor)
  : result bool * ProcessingJob * JavSPMonitor :=
  let job' := set_status completed job in
  match stats_add "files_processed" 1 (stats m) with
  | None => record_failure job' m
  | Some s1 =>
      match stats_add "total_processing_time" process_time s1 with
      | None => record_failure job' (with_stats s1 m)
      | Some s2 =>
          (Ok true, job',
           with_current None
             (with_completed ({[ file_path job ]} ∪ completed_files m)
                (with_stats s2 m)))
      end
  end.

(** The first two statements inside the [try] of [process_file]:
    [job.status = "processing"; self.current_job = job]. *)
Definition process_file_enter (job : ProcessingJob) (m : JavSPMonitor)
  : ProcessingJob * JavSPMonitor :=
  let job1 := set_status processing job in
  (job1, with_current (Some job1) m).

(** [process_file job].  The job object is shared with the queue: the
    caller writes the returned record back at the position of the job.
    [None]: the confirmation loop is still turning when the fuel runs
    out.  The two readings of [time.time()] around the external command
    are readings of the logical clock, so [process_time] is a whole
    number of ticks. *)
Definition process_file (fuel : nat) (job : ProcessingJob) (m : JavSPMonitor)
    (c : clock) : option (result bool * ProcessingJob * JavSPMonitor * clock) :=
  let '(job1, m1) := process_file_enter job m in
  match stability_loop fuel (file_path job) 0 c with
  | None => None
  | Some (Cancelled, c1) => Some (Ok false, job1, with_current None m1, c1)
  | Some (GateRaises _, c1) => Some (record_failure job1 m1, c1)
  | Some (Ready, c1) =>
      let job2 :=
        if enable_hash_check cfg
        then set_hash (calculate_file_hash (file_path job) c1) job1
        else job1 in
      let start_time := now c1 in
      match javsp E start_time with
      | InvocationRaises => Some (record_failure job2 m1, c1)
      | Exited returncode duration =>
          let c2 := elapse {| now := now c1 + Z.of_N duration; ops := ops c1 |} in
          let process_time := now c2 - start_time in
          if returncode =? 0
          then Some (record_success job2 process_time m1, c2)
          else Some (record_failure job2 m1, c2)
      end
  end.

(** [pending_jobs[0]] with its position in the queue. *)
Definition first_pending (q : list ProcessingJob) : option (nat * ProcessingJob) :=
  list_find (λ j, status j = pending) q.

(** [[j for j in self.processing_queue if j.status == "pending"]] *)
Definition cleanup (q : list ProcessingJob) : list ProcessingJob :=
  filter (λ j, status j = pending) q.

(** One turn of the [while] loop of [process_queue], the scan loop being
    quiet meanwhile.  An exception that leaves [process_file] ends the
    thread before the cleanup. *)
Definition process_queue_iteration (fuel : nat) (m : JavSPMonitor) (c : clock)
  : option (result unit * JavSPMonitor * clock) :=
  match first_pending (processing_queue m) with
  | Some (i, job) =>
      match process_file fuel job m c with
      | None => None
      | Some (r, job', m', c') =>
          let q := <[i := job']> (processing_queue m') in
          match r with
          | Ok _ => Some (Ok tt, with_queue (cleanup q) m', c')
          | Raise e => Some (Raise e, with_queue q m', c')
          end
      end
  | None =>
      match time_sleep 5 c with
      | (r, c') => Some (r, m, c')
      end
  end.

(** *** State store *)

Definition status_name (s : job_status) : string :=
  match s with
  | pending => "pending"
  | processing => "processing"
  | completed => "completed"
  | failed => "failed"
  end.

Definition to_dict (j : ProcessingJob) : gmap string json :=
  {[ "file_path" := JStr (file_path j);
     "size" := JNum (size j);
     "detected_time" := JStr (isoformat E (detected_time j));
     "last_modified" := JStr (isoformat E (last_modified j));
     "hash_md5" := match hash_md5 j with Some h => JStr h | None => JNull end;
     "status" := JStr (status_name (status j)) ]}.

(** The document [save_state] builds at an instant. *)
Definition state_document (m : JavSPMonitor) (t : Z) : json :=
  JObj {[ "stats" := JObj (stats m);
          "completed_files" := JArr (JStr <$> elements (completed_files m));
          "queue_length" := JNum (Z.of_nat (length (processing_queue m)));
          "current_job" := match current_job m with
                           | Some j => JObj (to_dict j)
                           | None => JNull
                           end;
          "timestamp" := JStr (isoformat E t) ]}.

(** What the state file holds: text [json.load] rejects, or a document.
    [json.dump] followed by [json.load] gives the document back, so the
    file is kept as the document itself. *)
Inductive file_content : Type :=
  | Garbled
  | Document (j : json).

(** How the write goes: it succeeds, [open] raises (the file stays as it
    was), or the write raises after [open] truncated the file. *)
Inductive write_outcome : Type := WriteOk | OpenFails | WriteFails.

(** [save_state]: the new content of the state file; the exception, if
    any, is logged. *)
Definition save_state (m : JavSPMonitor) (c : clock) (w : write_outcome)
    (disk : option file_content) : option file_content :=
  match w with
  | WriteOk => Some (Document (state_document m (now c)))
  | OpenFails => disk
  | WriteFails => Some Garbled
  end.

(** [s.update(other)] on a set of strings for a decoded value.  The
    elements of a list are added one by one; a list or a mapping among
    them is not hashable ([TypeError]), the elements added before it
    stay.  A number, a bool or [null] would join the set, which the set
    of strings of the model cannot hold: such a list is left outside
    the model. *)
Inductive set_update_result : Type :=
  | SetUpdated (s : gset string)
  | SetRaises (s : gset string)
  | SetOutsideModel.

Fixpoint add_members (s : gset string) (items : list json) : set_update_result :=
  match items with
  | [] => SetUpdated s
  | JStr path :: rest => add_members (s ∪ {[ path ]}) rest
  | JArr _ :: _ | JObj _ :: _ => SetRaises s
  | JNull :: _ | JBool _ :: _ | JNum _ :: _ => SetOutsideModel
  end.

Fixpoint characters (s : string) : list string :=
  match s with
  | EmptyString => []
  | String a rest => String a EmptyString :: characters rest
  end.

Definition set_update (s : gset string) (other : json) : set_update_result :=
  match other with
  | JArr items => add_members s items
  | JStr str => SetUpdated (s ∪ list_to_set (characters str))
  | JObj u => SetUpdated (s ∪ dom u)
  | JNull | JBool _ | JNum _ => SetRaises s
  end.

(** A sufficient test for [set_update] to stay inside the model. *)
Definition members_modelled (other : json) : bool :=
  match other with
  | JArr items =>
      forallb (λ item, match item with
                       | JNull | JBool _ | JNum _ => false
                       | _ => true
                       end) items
  | _ => true
  end.

(** [load_state].  Every exception is logged and leaves the monitor as
    it stands at that point.  [None] only for the documents left outside
    the model. *)
Definition load_state (m : JavSPMonitor) (disk : option file_content)
  : option JavSPMonitor :=
  match disk with
  | None => Some m
  | Some Garbled => Some m
  | Some (Document (JObj state)) =>
      match dict_update (stats m) (default (JObj ∅) (state !! "stats")) with
      | UpdateOutsideModel => None
      | UpdateRaises s => Some (with_stats s m)
      | Updated s =>
          let m1 := with_stats s m in
          match set_update (completed_files m1)
                  (default (JArr []) (state !! "completed_files")) with
          | SetOutsideModel => None
          | SetRaises cf => Some (with_completed cf m1)
          | SetUpdated cf => Some (with_completed cf m1)
          end
      end
  | Some (Document _) => Some m
  end.

(** *** The scan loop and the worker side by side

    The scan loop computes [new_files] and then adds them one by one.
    The worker is followed write by write: every step of it is one
    assignment of [process_file] or [process_queue] to the state the two
    threads share, so that the scan loop (and [save_state], which reads
    the monitor from the scan loop's thread) can come in between any
    two of them.  The steps of the two threads interleave freely and
    their instants are left free. *)

(** Where the worker stands. *)
Inductive worker_state : Type :=
  (** between two turns of [process_queue] *)
  | Idle
  (** in [process_file], the job at position [i] marked (line 222) *)
  | Entered (i : nat)
  (** [current_job] set (line 223): the confirmation loop *)
  | Busy (i : nat)
  (** the loop passed at [c], the fingerprint written (line 240): the
      external command runs *)
  | Hashed (i : nat) (c : clock)
  (** exit code 0 after [process_time], the job marked (line 267) *)
  | Marked (i : nat) (process_time : Z)
  (** [files_processed] counted (line 268) *)
  | Counted (i : nat) (process_time : Z)
  (** [total_processing_time] counted (line 269) *)
  | Timed (i : nat)
  (** the job marked failed (line 275 or line 281) *)
  | Failing (i : nat)
  (** the outcome recorded, [return] reached: before the [finally] *)
  | Leaving (i : nat)
  (** an exception leaves the [except] clause: before the [finally] *)
  | Raising (i : nat)
  (** [process_file] has returned: before the cleanup of the queue *)
  | Returned
  (** the exception has left [process_queue]: the thread is gone *)
  | Ended.

(** The position of the job the worker has picked. *)
Definition picked (w : worker_state) : option nat :=
  match w with
  | Entered i | Busy i | Hashed i _ | Marked i _ | Counted i _
  | Timed i | Failing i | Leaving i | Raising i => Some i
  | Idle | Returned | Ended => None
  end.

(** The position of the job [self.current_job] refers to. *)
Definition held (w : worker_state) : option nat :=
  match w with
  | Entered _ => None
  | _ => picked w
  end.

Record system : Type := {
  monitor : JavSPMonitor;
  new_files : list string;
  worker : worker_state
}.

Definition start_system (m0 : JavSPMonitor) : system :=
  {| monitor := m0; new_files := []; worker := Idle |}.

(** An assignment to a field of the job at position [i].  The job is one
    object, referred to by the queue and, once line 223 has run, by
    [self.current_job]: both see the change. *)
Definition write_job (i : nat) (f : ProcessingJob → ProcessingJob) (m : JavSPMonitor)
  : JavSPMonitor :=
  with_current (f <$> current_job m)
    (with_queue (alter f i (processing_queue m)) m).

Inductive step : system → system → Prop :=
  (** the scan loop *)
  | step_scan m w t :
      step {| monitor := m; new_files := []; worker := w |}
           {| monitor := m; new_files := scan_for_new_files m t; worker := w |}
  | step_add m p rest w c :
      step {| monitor := m; new_files := p :: rest; worker := w |}
           {| monitor := (add_to_queue p m c).1; new_files := rest; worker := w |}
  | step_activity m todo w t :
      step {| monitor := m; new_files := todo; worker := w |}
           {| monitor := with_stats (<["last_activity" := JStr (isoformat E t)]> (stats m)) m;
              new_files := todo; worker := w |}
  (** lines 292-295 and 222 *)
  | step_pick m todo i job :
      first_pending (processing_queue m) = Some (i, job) →
      step {| monitor := m; new_files := todo; worker := Idle |}
           {| monitor :=
                with_queue (<[i := (process_file_enter job m).1]> (processing_queue m)) m;
              new_files := todo; worker := Entered i |}
  (** line 223 *)
  | step_enter m todo i job :
      processing_queue m !! i = Some job →
      step {| monitor := m; new_files := todo; worker := Entered i |}
           {| monitor := with_current (Some job) m;
              new_files := todo; worker := Busy i |}
  (** lines 226-236: the loop is left by [return False] *)
  | step_cancel m todo i job fuel c c1 :
      processing_queue m !! i = Some job →
      stability_loop fuel (file_path job) 0 c = Some (Cancelled, c1) →
      step {| monitor := m; new_files := todo; worker := Busy i |}
           {| monitor := with_current None m; new_files := todo; worker := Returned |}
  (** lines 226-236 raise; line 281 *)
  | step_gate_raises m todo i job fuel c e c1 :
      processing_queue m !! i = Some job →
      stability_loop fuel (file_path job) 0 c = Some (GateRaises e, c1) →
      step {| monitor := m; new_files := todo; worker := Busy i |}
           {| monitor := write_job i (set_status failed) m;
              new_files := todo; worker := Failing i |}
  (** lines 226-240: the loop is passed, the fingerprint written *)
  | step_hash m todo i job fuel c c1 :
      processing_queue m !! i = Some job →
      stability_loop fuel (file_path job) 0 c = Some (Ready, c1) →
      step {| monitor := m; new_files := todo; worker := Busy i |}
           {| monitor :=
                if enable_hash_check cfg
                then write_job i (set_hash (calculate_file_hash (file_path job) c1)) m
                else m;
              new_files := todo; worker := Hashed i c1 |}
  (** lines 243-267 *)
  | step_exit_zero m todo i c1 d :
      javsp E (now c1) = Exited 0 d →
      step {| monitor := m; new_files := todo; worker := Hashed i c1 |}
           {| monitor := write_job i (set_status completed) m;
              new_files := todo;
              worker :=
                Marked i (now (elapse {| now := now c1 + Z.of_N d; ops := ops c1 |})
                          - now c1) |}
  (** lines 243-275 *)
  | step_exit_nonzero m todo i c1 rc d :
      javsp E (now c1) = Exited rc d →
      rc ≠ 0 →
      step {| monitor := m; new_files := todo; worker := Hashed i c1 |}
           {| monitor := write_job i (set_status failed) m;
              new_files := todo; worker := Failing i |}
  (** lines 243-262 raise; line 281 *)
  | step_invocation_raises m todo i c1 :
      javsp E (now c1) = InvocationRaises →
      step {| monitor := m; new_files := todo; worker := Hashed i c1 |}
           {| monitor := write_job i (set_status failed) m;
              new_files := todo; worker := Failing i |}
  (** line 268 *)
  | step_count m todo i t s :
      stats_add "files_processed" 1 (stats m) = Some s →
      step {| monitor := m; new_files := todo; worker := Marked i t |}
           {| monitor := with_stats s m; new_files := todo; worker := Counted i t |}
  (** line 268 raises; line 281 *)
  | step_count_raises m todo i t :
      stats_add "files_processed" 1 (stats m) = None →
      step {| monitor := m; new_files := todo; worker := Marked i t |}
           {| monitor := write_job i (set_status failed) m;
              new_files := todo; worker := Failing i |}
  (** line 269 *)
  | step_time m todo i t s :
      stats_add "total_processing_time" t (stats m) = Some s →
      step {| monitor := m; new_files := todo; worker := Counted i t |}
           {| monitor := with_stats s m; new_files := todo; worker := Timed i |}
  (** line 269 raises; line 281 *)
  | step_time_raises m todo i t :
      stats_add "total_processing_time" t (stats m) = None →
      step {| monitor := m; new_files := todo; worker := Counted i t |}
           {| monitor := write_job i (set_status failed) m;
              new_files := todo; worker := Failing i |}
  (** line 270 *)
  | step_complete m todo i job :
      processing_queue m !! i = Some job →
      step {| monitor := m; new_files := todo; worker := Timed i |}
           {| monitor := with_completed ({[ file_path job ]} ∪ completed_files m) m;
              new_files := todo; worker := Leaving i |}
  (** line 276 or line 282 *)
  | step_fail_count m todo i s :
      stats_add "files_failed" 1 (stats m) = Some s →
      step {| monitor := m; new_files := todo; worker := Failing i |}
           {| monitor := with_stats s m; new_files := todo; worker := Leaving i |}
  (** line 276 raises and then line 282, or line 282 raises *)
  | step_fail_raises m todo i :
      stats_add "files_failed" 1 (stats m) = None →
      step {| monitor := m; new_files := todo; worker := Failing i |}
           {| monitor := m; new_files := todo; worker := Raising i |}
  (** line 286 on the way out of a [return] *)
  | step_leave m todo i :
      step {| monitor := m; new_files := todo; worker := Leaving i |}
           {| monitor := with_current None m; new_files := todo; worker := Returned |}
  (** line 286 on the way out of an exception *)
  | step_raise m todo i :
      step {| monitor := m; new_files := todo; worker := Raising i |}
           {| monitor := with_current None m; new_files := todo; worker := Ended |}
  (** lines 299-300 *)
  | step_cleanup m todo :
      step {| monitor := m; new_files := todo; worker := Returned |}
           {| monitor := with_queue (cleanup (processing_queue m)) m;
              new_files := todo; worker := Idle |}.

(** [run]: the persisted state is loaded into the fresh monitor, then
    the two loops start. *)
Definition reachable (s : system) : Prop :=
  ∃ disk m0,
    load_state initial_monitor disk = Some m0 ∧ rtc step (start_system m0) s.

(** *** Notions used to state the properties *)

(** The two instants at which a check started at [c] samples the file. *)
Definition first_sample (c : clock) : clock := elapse c.

Definition second_sample (c : clock) : clock :=
  elapse
    (elapse {| now := now (first_sample c)
                      + stability_check_interval cfg * ticks_per_second;
               ops := ops (first_sample c) |}).

(** The size of [p] grows strictly across every sampling interval: a
    sample taken one interval (or more) after another is larger. *)
Definition under_active_write (p : string) : Prop :=
  ∀ t d stat1 stat2,
    0 ≤ d →
    fs_stat E t p = Some stat1 →
    fs_stat E (t + stability_check_interval cfg * ticks_per_second + d) p = Some stat2 →
    st_size stat1 < st_size stat2.



Definition queue_paths (m : JavSPMonitor) : list string :=
  file_path <$> processing_queue m.

(** The paths in the queue, followed by those the scan loop is about to
    add, are pairwise distinct. *)
Definition paths_distinct (s : system) : Prop :=
  NoDup (queue_paths (monitor s) ++ new_files s).

(** Every job the worker has not picked is pending, until
    [process_file] has returned. *)
Definition others_pending (s : system) : Prop :=
  ∀ j other,
    processing_queue (monitor s) !! j = Some other →
    picked (worker s) ≠ Some j →
    worker s ≠ Returned → worker s ≠ Ended →
    status other = pending.

End Monitor.

(** ** More of the monitor: the loop of [run] and the log retention *)

Section Housekeeping.

Variable E : os_env.
Variable cfg : settings.

(** The head of the body of [run]'s loop: scan, enqueue what was found,
    stamp the activity when there is any, save the state.  (The daily
    log cleanup and the sleep follow.) *)
Definition run_turn_head (m : JavSPMonitor) (c : clock) (w : write_outcome)
    (disk : option file_content) : JavSPMonitor * option file_content * clock :=
  let new_files := scan_for_new_files E cfg m (now c) in
  let '(m1, c1) := add_all E new_files m c in
  let m2 :=
    if negb (bool_decide (new_files = []))
       || negb (bool_decide (processing_queue m1 = []))
    then with_stats (<["last_activity" := JStr (isoformat E (now c1))]> (stats m1)) m1
    else m1 in
  (m2, save_state E m2 c1 w disk, c1).

End Housekeeping.

(** [s.startswith(p)] *)
Fixpoint starts_with (p s : string) : bool :=
  match p, s with
  | EmptyString, _ => true
  | String a p', String b s' => Ascii.eqb a b && starts_with p' s'
  | String _ _, EmptyString => false
  end.

(** [p in s] *)
Fixpoint contains (p s : string) : bool :=
  starts_with p s
  || match s with
     | EmptyString => false
     | String _ s' => contains p s'
     end.

(** A name matches the pattern ['*.log*'] of [glob] when [".log"] occurs
    in it. *)
Definition matches_log_pattern (name : string) : bool := contains ".log" name.

(** An entry of the log directory: its name, what [stat] gives for its
    modification time ([None]: [stat] raises) and whether [unlink]
    succeeds. *)
Record log_entry : Type := {
  log_name : string;
  log_mtime : option Z;
  log_unlink_ok : bool
}.

(** What the cutoff of [cleanup_old_logs] comes to.
    [datetime.now() - timedelta(days=cleanup_days)] is computed once,
    before the loop, in the local calendar: it raises [OverflowError]
    for a day count or a date the calendar does not hold
    ([NoCutoffDate]).  The loop then asks the date for its
    [timestamp()] at every entry it compares, which is a conversion
    from local time and may raise as well ([CutoffDate None]). *)
Inductive cutoff_date : Type :=
  | NoCutoffDate
  | CutoffDate (timestamp : option Z).

(** The loop of [cleanup_old_logs] over the entries of the log
    directory, in the order [glob] yields them: the names removed, and
    whether the loop ran to its end ([false]: an exception ended it,
    which the method logs). *)
Fixpoint remove_older_than (cutoff : option Z) (entries : list log_entry)
  : list string * bool :=
  match entries with
  | [] => ([], true)
  | e :: rest =>
      if matches_log_pattern (log_name e) then
        match log_mtime e, cutoff with
        | None, _ => ([], false)
        | Some _, None => ([], false)
        | Some mtime, Some timestamp =>
            if mtime <? timestamp then
              if log_unlink_ok e then
                let '(removed, finished) := remove_older_than cutoff rest in
                (log_name e :: removed, finished)
              else ([], false)
            else remove_older_than cutoff rest
        end
      else remove_older_than cutoff rest
  end.

(** [cleanup_old_logs] for what the cutoff comes to and the entries of
    the directory of the log file. *)
Definition cleanup_old_logs (cutoff : cutoff_date) (entries : list log_entry)
  : list string * bool :=
  match cutoff with
  | NoCutoffDate => ([], false)
  | CutoffDate timestamp => remove_older_than timestamp entries
  end.

(** ** The other monitoring scripts *)

(** [_merge_config(default, user)] of [health_check.py] and
    [system_monitor.py]: the table [default] after the call.  The keys
    of [user] are visited one by one; where both sides hold a mapping
    the nested table is merged in place, otherwise the user's value is
    stored. *)
Fixpoint merge_into (default : gmap string json) (user : json) {struct user}
  : gmap string json :=
  match user with
  | JObj u =>
      map_fold (λ key value acc,
                  match acc !! key, value with
                  | Some (JObj nested), JObj _ =>
                      <[key := JObj (merge_into nested value)]> acc
                  | _, _ => <[key := value]> acc
                  end) default u
  | _ => default
  end.

Definition _merge_config (default user : gmap string json) : gmap string json :=
  merge_into default (JObj user).

(** One visit of the loop of [_merge_config]. *)
Definition merge_visit (key : string) (value : json) (acc : gmap string json)
  : gmap string json :=
  match acc !! key, value with
  | Some (JObj nested), JObj _ => <[key := JObj (merge_into nested value)]> acc
  | _, _ => <[key := value]> acc
  end.

(** The value [_merge_config] leaves at a key the user document holds. *)
Definition merged_value (dv : option json) (uv : json) : json :=
  match dv, uv with
  | Some (JObj nested), JObj uu => JObj (_merge_config nested uu)
  | _, _ => uv
  end.

(** How deep the mappings of a document are nested. *)
Fixpoint depth (j : json) : nat :=
  match j with
  | JObj m => S (map_fold (λ _ v acc, Nat.max (depth v) acc) 0%nat m)
  | _ => 0%nat
  end.

(** [v > n] and [v >= n] for a decoded value and an integer: numbers
    compare, a bool counts as 0 or 1, anything else raises [TypeError]
    ([None]). *)
Definition py_gt (v : json) (n : Z) : option bool :=
  match v with
  | JNum z => Some (n <? z)
  | JBool b => Some (n <? Z.b2z b)
  | _ => None
  end.

Definition py_ge (v : json) (n : Z) : option bool :=
  match v with
  | JNum z => Some (n <=? z)
  | JBool b => Some (n <=? Z.b2z b)
  | _ => None
  end.

Module HealthCheck.

(** What [check_application_health] adds to [issues] while it reads the
    monitor's state file; the texts are kept as constructors. *)
Inductive issue : Type :=
  | QueueBacklogSevere (queue_length : json)
  | QueueBacklog (queue_length : json)
  | LongInactive
  | StateFileUnparsable.

(** The last-activity part of the block.  [parse_time] stands for
    [datetime.fromisoformat(last_activity.replace('Z', '+00:00'))]
    followed by the subtraction from [datetime.now()]: the instant, or
    [None] when either raises. *)
Definition check_last_activity (parse_time : string → option Z) (t : Z)
    (state : gmap string json) (issues : list issue) : list issue :=
  match state !! "last_activity" with
  | None => issues
  | Some last_activity =>
      if truthy last_activity then
        match last_activity with
        | JStr s =>
            match parse_time s with
            | Some last_time =>
                if 24 * 3600 * ticks_per_second <? t - last_time
                then issues ++ [LongInactive] else issues
            | None => issues ++ [StateFileUnparsable]
            end
        | _ => issues ++ [StateFileUnparsable]
        end
      else issues
  end.

(** The block of [check_application_health] that reads the state file of
    the monitor: the issues it appends and the [processing_queue] entry
    of [details] (the rounded [last_activity_hours_ago] entry is not
    kept). *)
Definition check_state_file (parse_time : string → option Z) (t : Z)
    (disk : option file_content) : list issue * option json :=
  match disk with
  | None => ([], None)
  | Some Garbled => ([StateFileUnparsable], None)
  | Some (Document (JObj state)) =>
      let queue_length := default (JNum 0) (state !! "queue_length") in
      match py_gt queue_length 100 with
      | None => ([StateFileUnparsable], Some queue_length)
      | Some true =>
          (check_last_activity parse_time t state [QueueBacklogSevere queue_length],
           Some queue_length)
      | Some false =>
          match py_gt queue_length 50 with
          | None => ([StateFileUnparsable], Some queue_length)
          | Some true =>
              (check_last_activity parse_time t state [QueueBacklog queue_length],
               Some queue_length)
          | Some false =>
              (check_last_activity parse_time t state [], Some queue_length)
          end
      end
  | Some (Document _) => ([StateFileUnparsable], None)
  end.

(** [HealthStatus]; the time stamp is an instant of the clock. *)
Record HealthStatus : Type := {
  component : string;
  status : string;
  message : string;
  timestamp : Z;
  details : option (gmap string json)
}.

(** [calculate_overall_status] *)
Definition calculate_overall_status (checks : gmap string HealthStatus) : string :=
  if existsb (λ h, String.eqb (status h) "critical") (map_to_list checks).*2
  then "critical"
  else if existsb (λ h, String.eqb (status h) "warning") (map_to_list checks).*2
  then "warning"
  else "healthy".

End HealthCheck.

Module SystemMonitor.

(** The status [check_application_metrics] gives the queue length:
    [None] when a comparison raises. *)
Definition queue_status (threshold_warning threshold_critical : Z)
    (queue_length : json) : option string :=
  match py_ge queue_length threshold_critical with
  | None => None
  | Some true => Some "critical"
  | Some false =>
      match py_ge queue_length threshold_warning with
      | None => None
      | Some true => Some "warning"
      | Some false => Some "normal"
      end
  end.

(** The queue part of [check_application_metrics] once the metric is
    switched on: the value and status of the metric it stores, and
    whether it raises an alert.  [None]: no state file, or an exception
    (which is logged). *)
Definition check_queue_metric (threshold_warning threshold_critical : Z)
    (disk : option file_content) : option (json * string * bool) :=
  match disk with
  | Some (Document (JObj state)) =>
      let queue_length := default (JNum 0) (state !! "queue_length") in
      match queue_status threshold_warning threshold_critical queue_length with
      | Some st => Some (queue_length, st, negb (String.eqb st "normal"))
      | None => None
      end
  | _ => None
  end.

End SystemMonitor.

(** The status the job the worker has picked can have, by where the
    worker stands. *)
Definition status_at (w : worker_state) (st : job_status) : Prop :=
  match w with
  | Entered _ | Busy _ | Hashed _ _ => st = processing
  | Marked _ _ | Counted _ _ | Timed _ => st = completed
  | Failing _ | Raising _ => st = failed
  | Leaving _ => st = completed ∨ st = failed
  | Idle | Returned | Ended => True
  end.

(** The job the worker has picked is in the queue, with the status of
    the place the worker stands at; [current_job] is that very job from
    line 223 to the [finally] clause, and [None] otherwise. *)
Definition in_flight (s : system) : Prop :=
  match picked (worker s) with
  | Some i =>
      ∃ job, processing_queue (monitor s) !! i = Some job
             ∧ status_at (worker s) (status job)
             ∧ current_job (monitor s)
               = match held (worker s) with Some _ => Some job | None => None end
  | None => current_job (monitor s) = None
  end.

(** The decoded values Python cannot iterate over. *)
Definition not_iterable (j : json) : bool :=
  match j with
  | JNull | JBool _ | JNum _ => true
  | _ => false
  end.

(** The three counters are numbers, the two counts non-negative. *)
Definition counters_numeric (m : JavSPMonitor) : Prop :=
  ∃ processed failed time,
    stats m !! "files_processed" = Some (JNum processed)
    ∧ stats m !! "files_failed" = Some (JNum failed)
    ∧ stats m !! "total_processing_time" = Some (JNum time)
    ∧ 0 ≤ processed ∧ 0 ≤ failed.

(** The state a turn of the worker ends in, from what [process_file]
    hands back. *)
Definition after_turn (todo : list string) (i : nat) (r : result bool)
    (job' : ProcessingJob) (m' : JavSPMonitor) : system :=
  match r with
  | Ok _ =>
      {| monitor := with_queue (cleanup (<[i := job']> (processing_queue m'))) m';
         new_files := todo; worker := Idle |}
  | Raise _ =>
      {| monitor := with_queue (<[i := job']> (processing_queue m')) m';
         new_files := todo; worker := Ended |}
  end.

(** With numbers for counters, no step leads the worker to an
    exception. *)
Definition sound (s : system) : Prop :=
  counters_numeric (monitor s)
  ∧ worker s ≠ Ended ∧ ∀ i, worker s ≠ Raising i.

(** ** Sample data *)

(** The time stamps (in seconds) of the years 1 to 9999, in UTC. *)
Definition in_calendar (t : Z) : bool :=
  (-62135596800 <? t) && (t <? 253402300800).

(** A table of defaults with a mapping-typed entry, and a user document
    that overrides one key inside it. *)
Definition nested_defaults : gmap string json :=
  {[ "paths" := JObj {[ "input" := JStr "/in"; "output" := JStr "/out" ]};
     "check_interval" := JNum 60 ]}.

Definition nested_user : gmap string json :=
  {[ "paths" := JObj {[ "input" := JStr "/data" ]} ]}.

Definition sample_user : gmap string json :=
  {[ "min_file_size_mb" := JNum 50;
     "video_extensions" := JArr [JStr ".mp4"];
     "notify" := JObj {[ "mail" := JStr "ops" ]} ]}.

Definition epoch : clock := {| now := 0; ops := 0 |}.

(** The built-in configuration at the types the monitor uses. *)
Definition sample_settings : settings :=
  {| input_directory := "/app/input";
     state_file := "/app/logs/monitor_state.json";
     video_extensions := default_video_extensions;
     min_file_size_mb := 200; stability_check_interval := 10;
     stability_check_count := 3; check_interval := 60;
     enable_hash_check := true |}.


Definition movie : string := "/app/input/movie.mp4".
Definition trailer : string := "/app/input/extras/trailer.MKV".

Definition steady_stat : stat_result :=
  {| st_size := 500 * 1024 * 1024; st_mtime := 1700000000 |}.

(** A quiet machine: every file has been in place for long, each system
    call takes a tick, and the external command ends as [outcome]. *)
Definition steady_env (outcome : proc_result) : os_env :=
  {| fs_stat := λ _ _, Some steady_stat;
     fs_read := λ _ _, Some [];
     rglob := λ _, Some [(movie, true); ("/app/input/notes.txt", true);
                         ("/app/input/extras", false); (trailer, true)];
     lag := λ _, 1%N;
     keep_running := λ _, true;
     javsp := λ _, outcome;
     md5_hexdigest := String.string_of_list_byte;
     isoformat := λ _, "2024-05-01T12:00:00";
     fromtimestamp_ok := in_calendar |}.


(** A file that never stops growing. *)
Definition growing_env : os_env :=
  {| fs_stat := λ t _, Some {| st_size := t; st_mtime := t |};
     fs_read := λ _ _, Some [];
     rglob := λ _, Some [(movie, true)];
     lag := λ _, 0%N;
     keep_running := λ _, true;
     javsp := λ _, Exited 0 0;
     md5_hexdigest := String.string_of_list_byte;
     isoformat := λ _, "2024-05-01T12:00:00";
     fromtimestamp_ok := in_calendar |}.

Definition movie_job : ProcessingJob :=
  {| file_path := movie; size := 500 * 1024 * 1024; detected_time := 0;
     last_modified := 1700000000; hash_md5 := None; status := pending |}.

Definition trailer_job : ProcessingJob :=
  {| file_path := trailer; size := 300 * 1024 * 1024; detected_time := 0;
     last_modified := 1700000000; hash_md5 := None; status := pending |}.

(** A monitor with two pending jobs. *)
Definition two_jobs : JavSPMonitor :=
  with_queue [movie_job; trailer_job] initial_monitor.

(** A file of [2 * n + 1] bytes: [n] zero bytes, one byte in the middle,
    [n] bytes 255. *)
Definition sandwich_of (n : nat) (middle : Byte.byte) : list Byte.byte :=
  replicate n Byte.x00 ++ middle :: replicate n Byte.xff.

(** Two files of 2 MB + 1 byte that differ in the middle byte only. *)
Definition sandwich (middle : Byte.byte) : list Byte.byte :=
  sandwich_of max_read middle.

(** A machine that holds the two files. *)
Definition sandwich_env : os_env :=
  {| fs_stat := λ _ _, Some steady_stat;
     fs_read := λ _ p, if String.eqb p movie then Some (sandwich Byte.x01)
                       else Some (sandwich Byte.x02);
     rglob := λ _, Some [(movie, true); (trailer, true)];
     lag := λ _, 1%N;
     keep_running := λ _, true;
     javsp := λ _, Exited 0 7000;
     md5_hexdigest := String.string_of_list_byte;
     isoformat := λ _, "2024-05-01T12:00:00";
     fromtimestamp_ok := in_calendar |}.

(** A monitor that has processed 42 files and has one job queued. *)
Definition seasoned_monitor : JavSPMonitor :=
  {| processing_queue := [trailer_job];
     completed_files := {[ movie; "/app/input/older.avi" ]};
     current_job := None;
     stats := <["files_processed" := JNum 42]>
                (<["total_processing_time" := JNum 3600000]>
                   (<["last_activity" := JStr "2024-05-01T12:00:00"]> initial_stats)) |}.

(** A configuration whose extensions are not in lower case. *)
Definition shouting_settings : settings :=
  {| input_directory := "/app/input";
     state_file := "/app/logs/monitor_state.json";
     video_extensions := [".MP4"; ".Mkv"];
     min_file_size_mb := 200; stability_check_interval := 10;
     stability_check_count := 3; check_interval := 60;
     enable_hash_check := true |}.


(** The quiet machine after the termination signal. *)
Definition stopping_env : os_env :=
  {| fs_stat := λ _ _, Some steady_stat;
     fs_read := λ _ _, Some [];
     rglob := λ _, Some [(movie, true)];
     lag := λ _, 1%N;
     keep_running := λ _, false;
     javsp := λ _, Exited 0 7000;
     md5_hexdigest := String.string_of_list_byte;
     isoformat := λ _, "2024-05-01T12:00:00";
     fromtimestamp_ok := in_calendar |}.

(** A negative sampling interval. *)
Definition negative_settings : settings :=
  {| input_directory := "/app/input";
     state_file := "/app/logs/monitor_state.json";
     video_extensions := default_video_extensions;
     min_file_size_mb := 200; stability_check_interval := -1;
     stability_check_count := 3; check_interval := 60;
     enable_hash_check := true |}.

(** A sampling interval of 292 years and more. *)
Definition oversized_settings : settings :=
  {| input_directory := "/app/input";
     state_file := "/app/logs/monitor_state.json";
     video_extensions := default_video_extensions;
     min_file_size_mb := 200; stability_check_interval := 9223372037;
     stability_check_count := 3; check_interval := 60;
     enable_hash_check := true |}.

(** No confirmation asked for. *)
Definition ungated_settings : settings :=
  {| input_directory := "/app/input";
     state_file := "/app/logs/monitor_state.json";
     video_extensions := default_video_extensions;
     min_file_size_mb := 200; stability_check_interval := 10;
     stability_check_count := 0; check_interval := 60;
     enable_hash_check := false |}.

(** A state file whose counters are fine and whose completed list is
    not a list, and one the other way round. *)
Definition half_good_state : gmap string json :=
  {[ "stats" := JObj {[ "files_processed" := JNum 7 ]};
     "completed_files" := JNum 3 ]}.

Definition other_half_good_state : gmap string json :=
  {[ "stats" := JNull;
     "completed_files" := JArr [JStr movie] ]}.

(** The log directory of the sample machine, the cutoff being the time
    stamp 95200000: an old rotated log, the current log, the state file
    and an old log that cannot be removed. *)
Definition sample_logs : list log_entry :=
  [ {| log_name := "monitor.log.1"; log_mtime := Some 1000; log_unlink_ok := true |};
    {| log_name := "monitor.log"; log_mtime := Some 699999000; log_unlink_ok := true |};
    {| log_name := "monitor_state.json"; log_mtime := Some 5; log_unlink_ok := true |};
    {| log_name := "javsp.log.2"; log_mtime := Some 2000; log_unlink_ok := false |};
    {| log_name := "batch.log.3"; log_mtime := Some 3000; log_unlink_ok := true |} ].

(** Four component reports, none of them critical or warning. *)
Definition sample_checks : gmap string HealthCheck.HealthStatus :=
  {[ "docker" := {| HealthCheck.component := "docker";
                    HealthCheck.status := "healthy";
                    HealthCheck.message := "ok";
                    HealthCheck.timestamp := 0;
                    HealthCheck.details := None |};
     "network" := {| HealthCheck.component := "network";
                     HealthCheck.status := "unknown";
                     HealthCheck.message := "no route";
                     HealthCheck.timestamp := 0;
                     HealthCheck.details := None |} ]}.

(** * Properties *)

(** ** Config Store *)

Lemma default_config_flat : flat default_config.
Proof.
  change (map_Forall (λ (_ : string) v, is_mapping v = false) default_config).
  eapply bool_decide_unpack. vm_compute. exact I.
Qed.

Lemma overlay_value_flat (dv uv : json) :
  is_mapping dv = false → overlay_value dv uv = uv.
Proof. by destruct dv. Qed.

Lemma recursive_overlay_flat (d u : gmap string json) :
  flat d → recursive_overlay d u = u ∪ d.
Proof.
  intros Hflat. apply map_eq. intros k.
  unfold recursive_overlay.
  rewrite !lookup_union, map_lookup_imap.
  destruct (d !! k) as [dv|] eqn:Hd; simpl.
  - destruct (u !! k) as [uv|] eqn:Hu; simpl; [|done].
    by rewrite (overlay_value_flat dv uv (Hflat k dv Hd)).
  - by destruct (u !! k).
Qed.

(** C3: [load_config] merges a user document that is a mapping onto
    the built-in defaults as the recursive overlay the specification
    words.  The code overwrites at the top level ([dict.update]); no
    built-in default is a mapping, so there is no nested default to
    merge into and the two agree: a key of the user document takes the
    user's value whole (a list such as ["video_extensions"] and a
    mapping included), every other key keeps its default, and the keys
    are those of both tables. *)
Theorem load_config_recursive_overlay (u : gmap string json) :
  ∃ r, load_config (ConfigDocument (JObj u)) = Some r
     ∧ r = recursive_overlay default_config u
     ∧ (∀ k v, u !! k = Some v → r !! k = Some v)
     ∧ (∀ k, u !! k = None → r !! k = default_config !! k)
     ∧ dom r = dom u ∪ dom default_config.
Proof.
  exists (u ∪ default_config). split; [done|]. split; [|split; [|split]].
  - by rewrite (recursive_overlay_flat _ _ default_config_flat).
  - intros k v Hu. by apply lookup_union_Some_l.
  - intros k Hu. by apply lookup_union_r.
  - by rewrite dom_union_L.
Qed.

(** On the built-in defaults, loading a user mapping is the recursive
    overlay. *)
Lemma load_config_builtin (u : gmap string json) :
  load_config (ConfigDocument (JObj u)) = Some (recursive_overlay default_config u).
Proof.
  unfold load_config; simpl.
  by rewrite (recursive_overlay_flat _ _ default_config_flat).
Qed.

(** A missing or unreadable file, and a document that is not iterable,
    leave the defaults. *)
Lemma load_config_fallback :
  load_config NoConfigFile = Some default_config
  ∧ load_config ConfigUnreadable = Some default_config
  ∧ load_config (ConfigDocument JNull) = Some default_config.
Proof. done. Qed.

Lemma settings_of_default_config :
  settings_of default_config
  = Some {| input_directory := "/app/input";
            state_file := "/app/logs/monitor_state.json";
            video_extensions := default_video_extensions;
            min_file_size_mb := 200; stability_check_interval := 10;
            stability_check_count := 3; check_interval := 60;
            enable_hash_check := true |}.
Proof. vm_compute. reflexivity. Qed.

Lemma load_config_recursive_overlay_witness :
  ∃ r, load_config (ConfigDocument (JObj sample_user)) = Some r
       ∧ r = recursive_overlay default_config sample_user
       ∧ r !! "video_extensions" = Some (JArr [JStr ".mp4"])
       ∧ r !! "check_interval" = Some (JNum 60).
Proof.
  destruct (load_config_recursive_overlay sample_user)
    as (r & Hload & Hoverlay & Huser & Hdefault & _).
  exists r. split; [exact Hload|]. split; [exact Hoverlay|]. split.
  - apply Huser. vm_compute. reflexivity.
  - rewrite Hdefault by (vm_compute; reflexivity). vm_compute. reflexivity.
Defined.

(** The overlay on a sample: the user's list replaces the default list,
    the user's own mapping is taken as it is, the other defaults stay. *)
Example load_config_sample :
  (r ← load_config (ConfigDocument (JObj sample_user)); r !! "video_extensions")
  = Some (JArr [JStr ".mp4"])
  ∧ (r ← load_config (ConfigDocument (JObj sample_user)); r !! "min_file_size_mb")
    = Some (JNum 50)
  ∧ (r ← load_config (ConfigDocument (JObj sample_user)); r !! "check_interval")
    = Some (JNum 60)
  ∧ (r ← load_config (ConfigDocument (JObj sample_user));
     notify ← r !! "notify"; jget "mail" notify) = Some (JStr "ops").
Proof. vm_compute. done. Qed.

(** A list of pairs is written pair by pair, and the pairs written
    before an element that is no pair stay in the configuration, although
    the exception makes the loader report that it uses the defaults. *)
Example load_config_pairs_sample :
  (r ← load_config (ConfigDocument (JArr [JArr [JStr "check_interval"; JNum 5]]));
   r !! "check_interval") = Some (JNum 5)
  ∧ (r ← load_config (ConfigDocument
                        (JArr [JArr [JStr "check_interval"; JNum 5]; JNum 7]));
     r !! "check_interval") = Some (JNum 5)
  ∧ load_config (ConfigDocument (JArr [JArr [JNum 1; JNum 2]])) = None.
Proof. vm_compute. done. Qed.

(** ** Paths *)

Example suffix_samples :
  suffix "/app/input/a.b/movie.MP4" = ".MP4"
  ∧ suffix "/app/input/.hidden" = ""
  ∧ suffix "/app/in.put/file" = ""
  ∧ suffix "/app/input/name." = ""
  ∧ suffix "/app/input/..mp4" = ".mp4"
  ∧ lower ".MKV" = ".mkv".
Proof. vm_compute. done. Qed.

(** Trailing and doubled slashes and single dots do not count. *)
Example path_name_samples :
  path_name "/app/input/movie.mp4/" = "movie.mp4"
  ∧ path_name "a//b.mkv//" = "b.mkv"
  ∧ path_name "a/./b.mp4/." = "b.mp4"
  ∧ path_name "a/.." = ".."
  ∧ path_name "/" = ""
  ∧ path_name "." = ""
  ∧ path_name "" = ""
  ∧ suffix "/app/input/movie.mp4/" = ".mp4".
Proof. vm_compute. done. Qed.

Example is_video_file_samples :
  is_video_file sample_settings trailer = true
  ∧ is_video_file sample_settings "/app/input/notes.txt" = false
  ∧ is_video_file sample_settings "/app/input/mp4" = false.
Proof. vm_compute. done. Qed.

(** ** Stability Gate *)

Section Gate.

Context (E : os_env) (cfg : settings).

Lemma elapse_now (c : clock) : now c ≤ now (elapse E c).
Proof. unfold elapse; simpl. lia. Qed.

Lemma second_sample_now (c : clock) :
  now (first_sample E c) + stability_check_interval cfg * ticks_per_second
  ≤ now (second_sample E cfg c).
Proof.
  unfold second_sample.
  match goal with
  | |- _ ≤ now (elapse E (elapse E ?x)) =>
      pose proof (elapse_now x); pose proof (elapse_now (elapse E x))
  end.
  simpl in *. lia.
Qed.


(** The check computed step by step. *)
Lemma is_file_stable_unfold (p : string) (c : clock) :
  is_file_stable E cfg p c =
  match fs_stat E (now (first_sample E c)) p with
  | None => (Ok false, first_sample E c)
  | Some stat1 =>
      match sleep_error (stability_check_interval cfg) with
      | Some e => (Raise e, first_sample E c)
      | None =>
          match fs_stat E (now (second_sample E cfg c)) p with
          | None => (Ok false, second_sample E cfg c)
          | Some stat2 =>
              (Ok ((st_size stat1 =? st_size stat2)
                   && (st_mtime stat1 =? st_mtime stat2)
                   && (min_file_size_mb cfg * 1024 * 1024 <=? st_size stat1)),
               second_sample E cfg c)
          end
      end
  end.
Proof.
  unfold is_file_stable, os_stat, time_sleep, second_sample, first_sample.
  destruct (fs_stat E (now (elapse E c)) p); [|done].
  by destruct (sleep_error (stability_check_interval cfg)).
Qed.

(** [time.sleep] accepts exactly the lengths from 0 to below
    [sleep_limit]. *)
Lemma sleep_error_None (secs : Z) :
  sleep_error secs = None ↔ 0 ≤ secs < sleep_limit.
Proof.
  unfold sleep_error, sleep_limit.
  destruct (secs <=? _) eqn:H1; destruct (_ <=? secs) eqn:H2;
    destruct (secs <? 0) eqn:H3; simpl;
    rewrite ?Z.leb_le, ?Z.leb_gt, ?Z.ltb_lt, ?Z.ltb_ge in *;
    split; (done || lia).
Qed.


Lemma sleep_error_negative (secs : Z) :
  secs < 0 →
  sleep_error secs
  = Some (if secs <=? - sleep_limit then OverflowError else ValueError).
Proof.
  intros Hneg. unfold sleep_error, sleep_limit.
  destruct (secs <=? _) eqn:H1; [done|].
  assert ((9223372037 <=? secs) = false) as -> by (apply Z.leb_gt; lia).
  by assert ((secs <? 0) = true) as -> by (by apply Z.ltb_lt).
Qed.


(** *** Files under active write *)

Lemma second_sample_offset (c : clock) :
  ∃ d, 0 ≤ d
     ∧ now (second_sample E cfg c)
       = now (first_sample E c) + stability_check_interval cfg * ticks_per_second + d.
Proof.
  exists (now (second_sample E cfg c) - now (first_sample E c)
          - stability_check_interval cfg * ticks_per_second).
  pose proof (second_sample_now c). lia.
Qed.

Lemma is_file_stable_true_inv (p : string) (c c' : clock) :
  is_file_stable E cfg p c = (Ok true, c') →
  ∃ stat1 stat2,
    fs_stat E (now (first_sample E c)) p = Some stat1
    ∧ fs_stat E (now (second_sample E cfg c)) p = Some stat2
    ∧ st_size stat1 = st_size stat2
    ∧ 0 ≤ stability_check_interval cfg
    ∧ c' = second_sample E cfg c.
Proof.
  rewrite is_file_stable_unfold.
  destruct (fs_stat E (now (first_sample E c)) p) as [stat1|]; [|done].
  destruct (sleep_error (stability_check_interval cfg)) eqn:Hitv; [done|].
  apply sleep_error_None in Hitv.
  destruct (fs_stat E (now (second_sample E cfg c)) p) as [stat2|]; [|done].
  intros [= Hb <-]. exists stat1, stat2.
  apply andb_true_iff in Hb as [Hb _]. apply andb_true_iff in Hb as [Hsz _].
  repeat split; lia.
Qed.

Lemma growing_check_not_stable (p : string) (c c' : clock) :
  under_active_write E cfg p → is_file_stable E cfg p c ≠ (Ok true, c').
Proof.
  intros Hgrow Hstable.
  apply is_file_stable_true_inv in Hstable
    as (stat1 & stat2 & H1 & H2 & Hsz & _ & _).
  destruct (second_sample_offset c) as (d & Hd & Heq).
  rewrite Heq in H2.
  pose proof (Hgrow _ _ _ _ Hd H1 H2). lia.
Qed.

(** One turn of the confirmation loop, read off its definition: below
    the count, a check that answers moves the counter (one up after a
    success, back to zero after a failure), then the shutdown flag is
    looked at, then the loop goes on. *)
Lemma stability_loop_turn (fuel : nat) (p : string) (k : Z) (c c1 : clock)
    (stable : bool) :
  k < stability_check_count cfg →
  is_file_stable E cfg p c = (Ok stable, c1) →
  stability_loop E cfg (S fuel) p k c
  = if keep_running E (now c1)
    then stability_loop E cfg fuel p (if stable then k + 1 else 0) c1
    else Some (Cancelled, c1).
Proof.
  intros Hk Hcheck. simpl.
  assert ((k <? stability_check_count cfg) = true) as -> by (by apply Z.ltb_lt).
  rewrite Hcheck. by destruct (keep_running E (now c1)).
Qed.

Lemma growing_loop_not_ready (p : string) :
  0 < stability_check_count cfg →
  under_active_write E cfg p →
  ∀ fuel k c c',
    k < stability_check_count cfg →
    stability_loop E cfg fuel p k c ≠ Some (Ready, c').
Proof.
  intros Hcount Hgrow. induction fuel as [|fuel IH]; intros k c c' Hk; simpl.
  - assert ((k <? stability_check_count cfg) = true) as -> by (apply Z.ltb_lt; lia).
    done.
  - assert ((k <? stability_check_count cfg) = true) as -> by (apply Z.ltb_lt; lia).
    destruct (is_file_stable E cfg p c) as [[[]|e] c1] eqn:Hc; [| |done].
    + by apply growing_check_not_stable in Hc.
    + destruct (keep_running E (now c1)); simpl; [by apply IH|done].
Qed.

(** C2: while the size of a file grows across every sampling interval
    and at least one confirmation is asked for, no check of it succeeds
    and the confirmation loop never ends with the file ready, however
    long it runs and whatever the counter it is entered with.  And for
    any file, one turn of the loop below the count moves the counter as
    the check answers: a failed check puts it back to zero, whatever it
    was, so the loop goes on as from zero; a successful one adds one. *)
Theorem growing_file_never_ready (p : string) :
  0 < stability_check_count cfg →
  under_active_write E cfg p →
  ∀ fuel c,
    (∀ c', is_file_stable E cfg p c ≠ (Ok true, c'))
    ∧ (∀ k c', k < stability_check_count cfg →
               stability_loop E cfg fuel p k c ≠ Some (Ready, c'))
    ∧ (∀ q k c0 c1,
         k < stability_check_count cfg →
         is_file_stable E cfg q c0 = (Ok false, c1) →
         stability_loop E cfg (S fuel) q k c0
         = if keep_running E (now c1)
           then stability_loop E cfg fuel q 0 c1
           else Some (Cancelled, c1))
    ∧ (∀ q k c0 c1,
         k < stability_check_count cfg →
         is_file_stable E cfg q c0 = (Ok true, c1) →
         stability_loop E cfg (S fuel) q k c0
         = if keep_running E (now c1)
           then stability_loop E cfg fuel q (k + 1) c1
           else Some (Cancelled, c1)).
Proof.
  intros Hcount Hgrow fuel c. split; [|split; [|split]].
  - intros c'. by apply growing_check_not_stable.
  - intros k c' Hk. by apply growing_loop_not_ready.
  - intros q k c0 c1 Hk Hq. by rewrite (stability_loop_turn _ _ _ _ _ _ Hk Hq).
  - intros q k c0 c1 Hk Hq. by rewrite (stability_loop_turn _ _ _ _ _ _ Hk Hq).
Qed.

(** *** Files that settle *)



End Gate.


Lemma growing_env_under_active_write :
  under_active_write growing_env sample_settings movie.
Proof.
  intros t d stat1 stat2 Hd [= <-] [= <-]. simpl. unfold ticks_per_second. lia.
Qed.

Lemma growing_file_never_ready_witness :
  0 < stability_check_count sample_settings
  ∧ under_active_write growing_env sample_settings movie
  ∧ (∀ c', stability_loop growing_env sample_settings 40 movie 2 epoch
           ≠ Some (Ready, c'))
  ∧ stability_loop growing_env sample_settings 40 movie 2 epoch
    = stability_loop growing_env sample_settings 39 movie 0
        (second_sample growing_env sample_settings epoch).
Proof.
  assert (0 < stability_check_count sample_settings) as H by (simpl; lia).
  split; [exact H|]. split; [exact growing_env_under_active_write|].
  destruct (growing_file_never_ready growing_env sample_settings movie H
              growing_env_under_active_write 39%nat epoch) as (_ & Hloop & Hreset & _).
  split.
  - intros c'.
    exact (proj1 (proj2 (growing_file_never_ready growing_env sample_settings movie H
                           growing_env_under_active_write 40%nat epoch))
             2 c' ltac:(simpl; lia)).
  - exact (Hreset movie 2 epoch (second_sample growing_env sample_settings epoch)
             ltac:(simpl; lia) eq_refl).
Defined.

(** ** Worker *)

Section Worker.

Context (E : os_env) (cfg : settings).




(** *** What [process_file] does to the job and the counters *)

Lemma set_status_status (s : job_status) (j : ProcessingJob) :
  status (set_status s j) = s.
Proof. done. Qed.

Lemma set_status_path (s : job_status) (j : ProcessingJob) :
  file_path (set_status s j) = file_path j.
Proof. done. Qed.

Lemma record_failure_status (job : ProcessingJob) (m : JavSPMonitor) :
  status (record_failure job m).1.2 = failed
  ∧ file_path (record_failure job m).1.2 = file_path job
  ∧ completed_files (record_failure job m).2 = completed_files m
  ∧ processing_queue (record_failure job m).2 = processing_queue m
  ∧ current_job (record_failure job m).2 = None.
Proof. unfold record_failure. by destruct (stats_add _ _ _). Qed.

Lemma stats_add_num (key : string) (n z : Z) (s : gmap string json) :
  s !! key = Some (JNum z) →
  stats_add key n s = Some (<[key := JNum (z + n)]> s).
Proof. intros H. unfold stats_add. by rewrite H. Qed.

Lemma record_failure_counted (job : ProcessingJob) (m : JavSPMonitor) (n : Z) :
  stats m !! "files_failed" = Some (JNum n) →
  record_failure job m
  = (Ok false, set_status failed job,
     with_current None (with_stats (<["files_failed" := JNum (n + 1)]> (stats m)) m)).
Proof. intros H. unfold record_failure. by rewrite (stats_add_num _ _ _ _ H). Qed.

Lemma record_success_counted (job : ProcessingJob) (t : Z) (m : JavSPMonitor) (n1 n2 : Z) :
  stats m !! "files_processed" = Some (JNum n1) →
  stats m !! "total_processing_time" = Some (JNum n2) →
  record_success job t m
  = (Ok true, set_status completed job,
     with_current None
       (with_completed ({[ file_path job ]} ∪ completed_files m)
          (with_stats (<["total_processing_time" := JNum (n2 + t)]>
                         (<["files_processed" := JNum (n1 + 1)]> (stats m))) m))).
Proof.
  intros H1 H2. unfold record_success.
  rewrite (stats_add_num _ _ _ _ H1).
  by rewrite (stats_add_num "total_processing_time" t n2) by by rewrite lookup_insert_ne.
Qed.

Lemma record_failure_inv (job : ProcessingJob) (m : JavSPMonitor) r job' m' :
  record_failure job m = (r, job', m') →
  job' = set_status failed job
  ∧ processing_queue m' = processing_queue m
  ∧ completed_files m' = completed_files m
  ∧ current_job m' = None.
Proof.
  unfold record_failure.
  destruct (stats_add _ _ _); by intros [= <- <- <-].
Qed.

Lemma record_success_inv (job : ProcessingJob) (t : Z) (m : JavSPMonitor) r job' m' :
  record_success job t m = (r, job', m') →
  (job' = set_status completed job ∨ job' = set_status failed job)
  ∧ processing_queue m' = processing_queue m
  ∧ current_job m' = None.
Proof.
  unfold record_success.
  destruct (stats_add "files_processed" 1 _) as [s1|].
  - destruct (stats_add "total_processing_time" _ s1) as [s2|].
    + intros [= <- <- <-]. by split; [left|].
    + intros (-> & ? & _ & ?)%record_failure_inv. by split; [right|].
  - intros (-> & ? & _ & ?)%record_failure_inv. by split; [right|].
Qed.

(** The job that [process_file] hands back is the job it was given, with
    a status that is no longer [pending] and, at most, a fingerprint. *)
Lemma process_file_job (fuel : nat) (job : ProcessingJob) (m : JavSPMonitor) (c : clock)
    r job' m' c' :
  process_file E cfg fuel job m c = Some (r, job', m', c') →
  file_path job' = file_path job
  ∧ status job' ≠ pending
  ∧ processing_queue m' = processing_queue m
  ∧ current_job m' = None.
Proof.
  unfold process_file, process_file_enter.
  destruct (stability_loop E cfg fuel (file_path job) 0 c) as [[[] c1]|]; [| | |done].
  - set (job2 := if enable_hash_check cfg then _ else _).
    assert (file_path job2 = file_path job) as Hp.
    { subst job2. by destruct (enable_hash_check cfg). }
    destruct (javsp E (now c1)) as [rc d|]; [destruct (rc =? 0)|].
    + intros [= Heq <-].
      apply record_success_inv in Heq as ([-> | ->] & ? & ?); by rewrite <- Hp.
    + intros [= Heq <-].
      apply record_failure_inv in Heq as (-> & ? & _ & ?); by rewrite <- Hp.
    + intros [= Heq <-].
      apply record_failure_inv in Heq as (-> & ? & _ & ?); by rewrite <- Hp.
  - by intros [= <- <- <- <-].
  - intros [= Heq <-].
    by apply record_failure_inv in Heq as (-> & ? & _ & ?).
Qed.

(** *** One turn of the worker *)

Lemma first_pending_Some (q : list ProcessingJob) (i : nat) (job : ProcessingJob) :
  first_pending q = Some (i, job) →
  q !! i = Some job ∧ status job = pending.
Proof. unfold first_pending. intros (? & ? & _)%list_find_Some. done. Qed.

Lemma cleanup_pending (q : list ProcessingJob) :
  Forall (λ j, status j = pending) (cleanup q).
Proof. apply Forall_forall. intros j. unfold cleanup. by intros [? _]%list_elem_of_filter. Qed.

(** Writing a job that is no longer pending back at its position and
    cleaning the queue removes that position and nothing else that was
    pending. *)
Lemma cleanup_insert_done (q : list ProcessingJob) (i : nat) (job' : ProcessingJob) :
  (i < length q)%nat →
  status job' ≠ pending →
  cleanup (<[i := job']> q) = cleanup (delete i q).
Proof.
  intros Hi Hdone. unfold cleanup.
  rewrite insert_take_drop by done. rewrite delete_take_drop.
  rewrite !filter_app. by rewrite filter_cons_False.
Qed.

Lemma process_queue_iteration_job (fuel : nat) (m : JavSPMonitor) (c : clock)
    (i : nat) (job : ProcessingJob) r job' m' c' :
  first_pending (processing_queue m) = Some (i, job) →
  process_file E cfg fuel job m c = Some (r, job', m', c') →
  process_queue_iteration E cfg fuel m c
  = Some (match r with Ok _ => Ok tt | Raise e => Raise e end,
          with_queue (match r with
                      | Ok _ => cleanup (<[i := job']> (processing_queue m'))
                      | Raise _ => <[i := job']> (processing_queue m')
                      end) m',
          c').
Proof.
  intros Hfirst Hrun. unfold process_queue_iteration.
  rewrite Hfirst, Hrun. by destruct r.
Qed.

(** C4, as the code has it: one invocation of the external command is
    tied to the one job the worker picked.  When the command exits
    non-zero or raises, that job is marked failed; when it exits 0 (and
    the counters can be incremented) that job is marked completed, with
    no look at the file.  Every other job of the queue keeps its record:
    those that were pending are still queued after the turn, and after a
    turn that ends normally the queue is the old one without the picked
    position, cleaned. *)
Theorem process_file_marks_only_its_job (fuel : nat) (m : JavSPMonitor)
    (c c1 : clock) (i : nat) (job : ProcessingJob) :
  first_pending (processing_queue m) = Some (i, job) →
  stability_loop E cfg fuel (file_path job) 0 c = Some (Ready, c1) →
  ∃ r job' m' c' mq,
    process_file E cfg fuel job m c = Some (r, job', m', c')
    ∧ (javsp E (now c1) = InvocationRaises
       ∨ (∃ rc d, javsp E (now c1) = Exited rc d ∧ rc ≠ 0) →
       status job' = failed)
    ∧ (∀ d n1 n2,
         javsp E (now c1) = Exited 0 d →
         stats m !! "files_processed" = Some (JNum n1) →
         stats m !! "total_processing_time" = Some (JNum n2) →
         r = Ok true ∧ status job' = completed)
    ∧ process_queue_iteration E cfg fuel m c
      = Some (match r with Ok _ => Ok tt | Raise e => Raise e end, mq, c')
    ∧ (∀ j other,
         j ≠ i → processing_queue m !! j = Some other → status other = pending →
         other ∈ processing_queue mq)
    ∧ (∀ b, r = Ok b →
         processing_queue mq = cleanup (delete i (processing_queue m))).
Proof.
  intros Hfirst Hgate.
  destruct (first_pending_Some _ _ _ Hfirst) as [Hi Hpending].
  destruct (process_file E cfg fuel job m c) as [[[[r job'] m'] c']|] eqn:Hrun.
  2:{ unfold process_file, process_file_enter in Hrun. rewrite Hgate in Hrun.
      destruct (javsp E (now c1)) as [rc d|]; [destruct (rc =? 0)|]; done. }
  destruct (process_file_job _ _ _ _ _ _ _ _ Hrun) as (Hpath & Hdone & Hq & _).
  eexists r, job', m', c', _.
  split; [done|].
  split; [|split; [|split;
    [exact (process_queue_iteration_job _ _ _ _ _ _ _ _ _ Hfirst Hrun)|split]]].
  - unfold process_file, process_file_enter in Hrun. rewrite Hgate in Hrun.
    intros [Hraise | (rc & d & Hexit & Hrc)].
    + rewrite Hraise in Hrun. injection Hrun as Hrun _.
      by apply record_failure_inv in Hrun as (-> & _).
    + rewrite Hexit in Hrun.
      assert ((rc =? 0) = false) as Hne by (by apply Z.eqb_neq).
      rewrite Hne in Hrun. injection Hrun as Hrun _.
      by apply record_failure_inv in Hrun as (-> & _).
  - intros d n1 n2 Hexit H1 H2.
    unfold process_file, process_file_enter in Hrun. rewrite Hgate, Hexit in Hrun.
    simpl in Hrun.
    rewrite (record_success_counted _ _ _ n1 n2) in Hrun by done.
    by injection Hrun as <- <- _ _.
  - intros j other Hj Hother Hp. simpl. rewrite Hq.
    assert (other ∈ <[i := job']> (processing_queue m)) as Hin.
    { apply list_elem_of_lookup. exists j. by rewrite list_lookup_insert_ne. }
    destruct r; [|done]. unfold cleanup. by apply list_elem_of_filter.
  - intros b ->. simpl. rewrite Hq.
    apply cleanup_insert_done; [|done]. by eapply lookup_lt_Some.
Qed.

(** C6: when the confirmation loop has passed the file and the external
    command exits with a code other than 0, the job is marked failed,
    [files_failed] goes up by exactly one, and the completed set is
    left as it was; the turn of the worker then drops the job from the
    queue, so a later scan that still sees the file (a video file not
    completed before, with no other job of its own) yields its path
    again. *)
Theorem nonzero_exit_fails_job (fuel : nat) (m : JavSPMonitor) (c c1 : clock)
    (i : nat) (job : ProcessingJob) (rc : Z) (d : N) (n : Z) :
  first_pending (processing_queue m) = Some (i, job) →
  stability_loop E cfg fuel (file_path job) 0 c = Some (Ready, c1) →
  javsp E (now c1) = Exited rc d →
  rc ≠ 0 →
  stats m !! "files_failed" = Some (JNum n) →
  ∃ job' m' c' mq,
    process_file E cfg fuel job m c = Some (Ok false, job', m', c')
    ∧ status job' = failed
    ∧ stats m' !! "files_failed" = Some (JNum (n + 1))
    ∧ (∀ key, key ≠ "files_failed" → stats m' !! key = stats m !! key)
    ∧ completed_files m' = completed_files m
    ∧ process_queue_iteration E cfg fuel m c = Some (Ok tt, mq, c')
    ∧ completed_files mq = completed_files m
    ∧ stats mq = stats m'
    ∧ processing_queue mq = cleanup (delete i (processing_queue m))
    ∧ (∀ t entries,
         rglob E t = Some entries →
         (file_path job, true) ∈ entries →
         is_video_file cfg (file_path job) = true →
         file_path job ∉ completed_files m →
         (∀ j other, processing_queue m !! j = Some other → j ≠ i →
                     file_path other ≠ file_path job) →
         file_path job ∈ scan_for_new_files E cfg mq t).
Proof.
  intros Hfirst Hgate Hexit Hrc Hcount.
  destruct (first_pending_Some _ _ _ Hfirst) as [Hi Hpending].
  assert ((rc =? 0) = false) as Hne by (by apply Z.eqb_neq).
  assert (∃ job2, file_path job2 = file_path job ∧
            process_file E cfg fuel job m c
            = Some (record_failure job2 (with_current (Some (set_status processing job)) m),
                    elapse E {| now := now c1 + Z.of_N d; ops := ops c1 |}))
    as (job2 & Hpath2 & Hrun).
  { unfold process_file, process_file_enter. rewrite Hgate, Hexit, Hne.
    eexists. split; [|reflexivity]. by destruct (enable_hash_check cfg). }
  rewrite (record_failure_counted _ _ n) in Hrun by done.
  eexists _, _, _, _. split; [exact Hrun|].
  split; [done|]. split; [by simpl; rewrite lookup_insert_eq|].
  split; [by intros key Hkey; simpl; rewrite lookup_insert_ne|].
  split; [done|].
  split; [by rewrite (process_queue_iteration_job _ _ _ _ _ _ _ _ _ Hfirst Hrun)|].
  split; [done|]. split; [done|].
  assert (cleanup (<[i := set_status failed job2]> (processing_queue m))
          = cleanup (delete i (processing_queue m))) as Hclean.
  { apply cleanup_insert_done; [|done]. by eapply lookup_lt_Some. }
  split; [exact Hclean|].
  intros t entries Hls Hin Hvideo Hfresh Hothers.
  unfold scan_for_new_files. rewrite Hls.
  apply (list_elem_of_fmap_2' fst _ (file_path job, true)); [|done].
  apply list_elem_of_filter. split; [|done]. simpl.
  rewrite Hvideo. simpl.
  rewrite bool_decide_eq_false_2 by done. simpl.
  apply negb_prop_intro. unfold in_queue. rewrite Hclean.
  intros Hq%Is_true_true%bool_decide_eq_true.
  apply list_elem_of_fmap in Hq as (other & Hpath & Hq).
  unfold cleanup in Hq. apply list_elem_of_filter in Hq as [_ Hq].
  rewrite delete_take_drop in Hq.
  apply elem_of_app in Hq as [Hq | Hq].
  - apply list_elem_of_lookup in Hq as [j Hj].
    pose proof (lookup_lt_Some _ _ _ Hj) as Hlt.
    rewrite lookup_take_lt in Hj by (rewrite length_take in Hlt; lia).
    rewrite length_take in Hlt.
    eapply (Hothers j other); [done|lia|done].
  - apply list_elem_of_lookup in Hq as [j Hj].
    rewrite lookup_drop in Hj.
    eapply (Hothers _ other); [exact Hj|lia|done].
Qed.

End Worker.

Lemma process_file_marks_only_its_job_witness :
  first_pending (processing_queue two_jobs) = Some (0%nat, movie_job)
  ∧ stability_loop (steady_env InvocationRaises) sample_settings 3 movie 0 epoch
    = Some (Ready, {| now := 30009; ops := 9 |})
  ∧ ∃ r job' m' c' mq,
      process_file (steady_env InvocationRaises) sample_settings 3 movie_job two_jobs epoch
      = Some (r, job', m', c')
      ∧ status job' = failed
      ∧ process_queue_iteration (steady_env InvocationRaises) sample_settings 3 two_jobs epoch
        = Some (match r with Ok _ => Ok tt | Raise e => Raise e end, mq, c')
      ∧ trailer_job ∈ processing_queue mq.
Proof.
  assert (first_pending (processing_queue two_jobs) = Some (0%nat, movie_job))
    as Hfirst by (vm_compute; reflexivity).
  assert (stability_loop (steady_env InvocationRaises) sample_settings 3
            (file_path movie_job) 0 epoch
          = Some (Ready, {| now := 30009; ops := 9 |}))
    as Hgate by (vm_compute; reflexivity).
  split; [exact Hfirst|]. split; [exact Hgate|].
  destruct (process_file_marks_only_its_job (steady_env InvocationRaises)
              sample_settings 3 two_jobs epoch _ 0 movie_job Hfirst Hgate)
    as (r & job' & m' & c' & mq & Hrun & Hfail & _ & Hturn & Hothers & _).
  exists r, job', m', c', mq. split; [exact Hrun|]. split; [|split; [exact Hturn|]].
  - apply Hfail. by left.
  - apply (Hothers 1%nat); [lia|reflexivity|reflexivity].
Defined.

(** C4 as stated fails: the external command is given the whole input
    directory, two jobs are queued when it runs, it exits with code 1,
    and only the job the worker picked is marked failed; the other one
    is still pending in the queue after the turn.  The same holds after
    exit code 0: the other job is not marked completed. *)
Lemma failed_run_leaves_other_job_pending :
  processing_queue two_jobs = [movie_job; trailer_job]
  ∧ (λ r, processing_queue r.1.2)
      <$> process_queue_iteration (steady_env (Exited 1 7000)) sample_settings 3
            two_jobs epoch
    = Some [trailer_job]
  ∧ (λ r, processing_queue r.1.2)
      <$> process_queue_iteration (steady_env (Exited 0 7000)) sample_settings 3
            two_jobs epoch
    = Some [trailer_job]
  ∧ status trailer_job = pending
  ∧ (λ r, status r.1.1.2)
      <$> process_file (steady_env (Exited 1 7000)) sample_settings 3
            movie_job two_jobs epoch
    = Some failed.
Proof. vm_compute. done. Qed.

Lemma nonzero_exit_fails_job_witness :
  first_pending (processing_queue two_jobs) = Some (0%nat, movie_job)
  ∧ stability_loop (steady_env (Exited 1 7000)) sample_settings 3 movie 0 epoch
    = Some (Ready, {| now := 30009; ops := 9 |})
  ∧ javsp (steady_env (Exited 1 7000)) 30009 = Exited 1 7000
  ∧ stats two_jobs !! "files_failed" = Some (JNum 0)
  ∧ ∃ job' m' c' mq,
      process_file (steady_env (Exited 1 7000)) sample_settings 3 movie_job two_jobs epoch
      = Some (Ok false, job', m', c')
      ∧ status job' = failed
      ∧ stats m' !! "files_failed" = Some (JNum 1)
      ∧ completed_files m' = ∅
      ∧ process_queue_iteration (steady_env (Exited 1 7000)) sample_settings 3 two_jobs epoch
        = Some (Ok tt, mq, c')
      ∧ movie ∈ scan_for_new_files (steady_env (Exited 1 7000)) sample_settings mq 60000.
Proof.
  assert (first_pending (processing_queue two_jobs) = Some (0%nat, movie_job))
    as Hfirst by (vm_compute; reflexivity).
  assert (stability_loop (steady_env (Exited 1 7000)) sample_settings 3
            (file_path movie_job) 0 epoch
          = Some (Ready, {| now := 30009; ops := 9 |}))
    as Hgate by (vm_compute; reflexivity).
  assert (stats two_jobs !! "files_failed" = Some (JNum 0))
    as Hcount by (vm_compute; reflexivity).
  assert ((1 : Z) ≠ 0) as Hrc by lia.
  split; [exact Hfirst|]. split; [exact Hgate|]. split; [reflexivity|].
  split; [exact Hcount|].
  destruct (nonzero_exit_fails_job (steady_env (Exited 1 7000)) sample_settings 3
              two_jobs epoch _ 0 movie_job 1 7000 0 Hfirst Hgate eq_refl Hrc Hcount)
    as (job' & m' & c' & mq & Hrun & Hst & Hn & _ & Hdone & Hturn & _ & _ & _ & Hscan).
  exists job', m', c', mq.
  split; [exact Hrun|]. split; [exact Hst|]. split; [exact Hn|].
  split; [exact Hdone|]. split; [exact Hturn|].
  eapply (Hscan 60000); [reflexivity| | | |].
  - apply list_elem_of_here.
  - vm_compute. reflexivity.
  - apply not_elem_of_empty.
  - intros j other Hj Hne Hpath.
    destruct j as [|[|j]]; [done| |done].
    injection Hj as <-. discriminate Hpath.
Defined.

(** ** The scan loop and the worker together *)

Section Threads.

Context (E : os_env) (cfg : settings).

Lemma add_to_queue_queue (p : string) (m : JavSPMonitor) (c : clock) :
  processing_queue (add_to_queue E p m c).1
  = (match fs_stat E (now (elapse E c)) p with
     | Some st =>
         if fromtimestamp_ok E (st_mtime st)
         then processing_queue m ++ [new_job p st (now (elapse E c))]
         else processing_queue m
     | None => processing_queue m
     end).
Proof.
  unfold add_to_queue, os_stat.
  destruct (fs_stat _ _ _) as [st|]; [|done]. by destruct (fromtimestamp_ok E _).
Qed.

Lemma add_to_queue_rest (p : string) (m : JavSPMonitor) (c : clock) :
  completed_files (add_to_queue E p m c).1 = completed_files m
  ∧ stats (add_to_queue E p m c).1 = stats m.
Proof.
  unfold add_to_queue, os_stat.
  destruct (fs_stat _ _ _) as [st|]; [|done]. by destruct (fromtimestamp_ok E _).
Qed.

Lemma scan_not_queued (m : JavSPMonitor) (t : Z) (p : string) :
  p ∈ scan_for_new_files E cfg m t →
  (p ∉ queue_paths m) ∧ (p ∉ completed_files m).
Proof.
  unfold scan_for_new_files. destruct (rglob E t) as [entries|]; [|by intros ?%elem_of_nil].
  intros ([p' f] & -> & [Hp _]%list_elem_of_filter)%list_elem_of_fmap. simpl in *.
  apply Is_true_true in Hp.
  apply andb_true_iff in Hp as [Hp Hq]. apply andb_true_iff in Hp as [_ Hc].
  apply negb_true_iff, bool_decide_eq_false in Hq, Hc. done.
Qed.

Lemma scan_NoDup (m : JavSPMonitor) (t : Z) :
  (∀ entries, rglob E t = Some entries → NoDup entries.*1) →
  NoDup (scan_for_new_files E cfg m t).
Proof.
  intros Hwalk. unfold scan_for_new_files.
  destruct (rglob E t) as [entries|]; [|constructor].
  eapply sublist_NoDup; [by apply Hwalk|].
  apply fmap_sublist, sublist_filter.
Qed.

(** What a write to a job leaves alone. *)
Lemma alter_paths (i : nat) (f : ProcessingJob → ProcessingJob)
    (q : list ProcessingJob) :
  (∀ j, file_path (f j) = file_path j) →
  file_path <$> alter f i q = file_path <$> q.
Proof.
  intros Hf. rewrite (list_fmap_alter file_path f id); [by rewrite list_alter_id|].
  apply Forall_forall. intros j _. apply Hf.
Qed.

Lemma alter_insert (i : nat) (f : ProcessingJob → ProcessingJob)
    (q : list ProcessingJob) (job : ProcessingJob) :
  alter f i (<[i := job]> q) = <[i := f job]> q.
Proof.
  apply list_eq. intros j. destruct (decide (i = j)) as [<-|Hne].
  - rewrite list_lookup_alter_eq.
    destruct (decide (i < length q)%nat) as [Hlt|Hge].
    + by rewrite !list_lookup_insert_eq.
    + by rewrite !lookup_ge_None_2 by (rewrite ?length_insert; lia).
  - by rewrite list_lookup_alter_ne, !list_lookup_insert_ne.
Qed.

(** [others_pending] holds along every run. *)
Lemma others_pending_step (s s' : system) :
  step E cfg s s' → others_pending s → others_pending s'.
Proof.
  unfold others_pending.
  destruct 1 as [m w t|m p rest w c|m todo w t|m todo i job Hfirst| | | | | | | | | | | | | | | | |m todo];
    simpl; intros IH j other Hj Hp Hr He; try done;
    try match type of Hj with
        | context [enable_hash_check cfg] =>
            destruct (enable_hash_check cfg); simpl in Hj
        end;
    try (rewrite list_lookup_alter_ne in Hj by congruence);
    try (by eapply IH; eauto).
  - rewrite add_to_queue_queue in Hj.
    destruct (fs_stat E _ p) as [st|]; [|by eapply IH].
    destruct (fromtimestamp_ok E _); [|by eapply IH].
    apply lookup_app_Some in Hj as [Hj|[_ Hj]]; [by eapply IH|].
    by apply list_lookup_singleton_Some in Hj as [_ <-].
  - rewrite list_lookup_insert_ne in Hj by congruence. by eapply IH.
  - unfold cleanup in Hj. apply list_elem_of_lookup_2 in Hj.
    by apply list_elem_of_filter in Hj as [? _].
Qed.

Lemma update_pairs_dom (items : list json) :
  ∀ d, match update_pairs d items with
       | Updated d' | UpdateRaises d' => dom d ⊆ dom d'
       | UpdateOutsideModel => True
       end.
Proof.
  induction items as [|item rest IH]; intros d; simpl; [done|].
  destruct (as_pair item) as [k v| |]; [|done..].
  specialize (IH (<[k := v]> d)).
  assert (dom d ⊆ dom (<[k := v]> d)) as Hsub
    by (rewrite dom_insert_L; apply union_subseteq_r).
  destruct (update_pairs _ rest); [by etransitivity..|done].
Qed.

Lemma dict_update_dom (d : gmap string json) (other : json) :
  match dict_update d other with
  | Updated d' | UpdateRaises d' => dom d ⊆ dom d'
  | UpdateOutsideModel => True
  end.
Proof.
  destruct other as [| | |str|items|u]; simpl; try done.
  - by destruct (String.eqb str "").
  - apply update_pairs_dom.
  - rewrite dom_union_L. apply union_subseteq_r.
Qed.

Lemma add_members_subseteq (items : list json) :
  ∀ s, match add_members s items with
       | SetUpdated s' | SetRaises s' => s ⊆ s'
       | SetOutsideModel => True
       end.
Proof.
  induction items as [|item rest IH]; intros s; simpl; [done|].
  destruct item as [| | |path| |]; try done.
  specialize (IH (s ∪ {[ path ]})).
  destruct (add_members _ rest); [| |done];
    (etransitivity; [apply union_subseteq_l|exact IH]).
Qed.

Lemma set_update_subseteq (s : gset string) (other : json) :
  match set_update s other with
  | SetUpdated s' | SetRaises s' => s ⊆ s'
  | SetOutsideModel => True
  end.
Proof.
  destruct other as [| | |str|items|u]; simpl; try done;
    try apply union_subseteq_l.
  apply add_members_subseteq.
Qed.

(** The two sufficient tests do what they are for. *)
Lemma update_pairs_modelled (items : list json) :
  ∀ d, pairs_modelled (JArr items) = true →
       update_pairs d items ≠ UpdateOutsideModel.
Proof.
  induction items as [|item rest IH]; intros d; simpl; [done|].
  intros [Hitem Hrest]%andb_true_iff.
  destruct (as_pair item) as [k v| |]; [by apply IH|done..].
Qed.

Lemma dict_update_modelled (d : gmap string json) (other : json) :
  pairs_modelled other = true → dict_update d other ≠ UpdateOutsideModel.
Proof.
  destruct other as [| | |str|items|u]; try done.
  - intros _. simpl. by destruct (String.eqb str "").
  - apply update_pairs_modelled.
Qed.

Lemma add_members_modelled (items : list json) :
  ∀ s, members_modelled (JArr items) = true →
       add_members s items ≠ SetOutsideModel.
Proof.
  induction items as [|item rest IH]; intros s; simpl; [done|].
  intros [Hitem Hrest]%andb_true_iff.
  destruct item; try done. by apply IH.
Qed.

Lemma set_update_modelled (s : gset string) (other : json) :
  members_modelled other = true → set_update s other ≠ SetOutsideModel.
Proof.
  destruct other as [| | |str|items|u]; try done. apply add_members_modelled.
Qed.

(** [load_state] touches neither the queue nor the current job, and
    only adds to the counters' table and to the completed set. *)
Lemma load_state_keeps (m m0 : JavSPMonitor) (disk : option file_content) :
  load_state m disk = Some m0 →
  processing_queue m0 = processing_queue m
  ∧ current_job m0 = current_job m
  ∧ dom (stats m) ⊆ dom (stats m0)
  ∧ completed_files m ⊆ completed_files m0.
Proof.
  unfold load_state.
  destruct disk as [[|[| | | | |state]]|]; try (by intros [= <-]).
  pose proof (dict_update_dom (stats m) (default (JObj ∅) (state !! "stats"))) as Hdom.
  destruct (dict_update _ _) as [s|s|]; [| |done].
  - pose proof (set_update_subseteq (completed_files (with_stats s m))
                  (default (JArr []) (state !! "completed_files"))) as Hsub.
    destruct (set_update _ _) as [cf|cf|]; [| |done]; by intros [= <-].
  - by intros [= <-].
Qed.

Lemma others_pending_reachable (s : system) :
  reachable E cfg s → others_pending s.
Proof.
  intros (disk & m0 & Hload & Hreach).
  eapply (rtc_ind_r (λ s, others_pending s)); [| |exact Hreach].
  - apply load_state_keeps in Hload as (Hq & _).
    unfold others_pending; simpl. rewrite Hq. intros j other Hj.
    simpl in Hj. by rewrite lookup_nil in Hj.
  - intros y z _ Hstep IH. by eapply others_pending_step.
Qed.

(** C9: a turn of the worker that handles a job leaves only pending jobs
    in the queue, whatever became of the job (completed, failed, or left
    in [processing] by a shutdown); and in every state the two threads
    can reach, whenever the worker is between two turns every job in the
    queue is pending. *)
Theorem queue_holds_pending_jobs :
  (∀ fuel m c i job r m' c',
     first_pending (processing_queue m) = Some (i, job) →
     process_queue_iteration E cfg fuel m c = Some (Ok r, m', c') →
     Forall (λ j, status j = pending) (processing_queue m'))
  ∧ (∀ s, reachable E cfg s → worker s = Idle →
          Forall (λ j, status j = pending) (processing_queue (monitor s))).
Proof.
  split.
  - intros fuel m c i job r m' c' Hfirst. unfold process_queue_iteration.
    rewrite Hfirst.
    destruct (process_file E cfg fuel job m c) as [[[[[b|e] job'] mf] cf]|]; [| |done].
    + intros [= _ <- _]. apply cleanup_pending.
    + done.
  - intros s Hreach Hidle. apply others_pending_reachable in Hreach.
    unfold others_pending in Hreach. rewrite Hidle in Hreach.
    apply Forall_lookup. intros j other Hj. by eapply Hreach.
Qed.

(** *** Distinct paths *)

Section Distinct.

(** The directory walk yields every path once. *)
Hypothesis walk_distinct : ∀ t entries, rglob E t = Some entries → NoDup entries.*1.

Lemma paths_distinct_step (s s' : system) :
  step E cfg s s' → paths_distinct s → paths_distinct s'.
Proof.
  unfold paths_distinct, queue_paths.
  destruct 1 as [m w t|m p rest w c|m todo w t|m todo i job Hfirst
                 | | | | | | | | | | | | | | | | |m todo];
    simpl; try done;
    try match goal with
        | |- context [enable_hash_check cfg] =>
            destruct (enable_hash_check cfg); simpl; [|done]
        end;
    try (by rewrite alter_paths by done).
  - rewrite app_nil_r. intros Hq. apply NoDup_app. split; [done|]. split.
    + intros p Hp Hscan. by apply scan_not_queued in Hscan as [? _].
    + apply scan_NoDup. apply walk_distinct.
  - rewrite add_to_queue_queue. intros Hq.
    assert (NoDup ((file_path <$> processing_queue m) ++ rest)) as Hskip.
    { eapply sublist_NoDup; [exact Hq|].
      apply sublist_app; [done|]. by apply sublist_cons. }
    destruct (fs_stat E _ p) as [st|]; [|done].
    destruct (fromtimestamp_ok E _); [|done].
    by rewrite fmap_app, <- app_assoc.
  - rewrite list_fmap_insert. simpl.
    apply first_pending_Some in Hfirst as [Hi _].
    rewrite list_insert_id; [done|]. by rewrite list_lookup_fmap, Hi.
  - intros Hdup. eapply sublist_NoDup; [exact Hdup|].
    apply sublist_app; [|done]. apply fmap_sublist, sublist_filter.
Qed.

Lemma paths_distinct_reachable (s : system) :
  reachable E cfg s → paths_distinct s.
Proof.
  intros (disk & m0 & Hload & Hreach).
  eapply (rtc_ind_r (λ s, paths_distinct s)); [| |exact Hreach].
  - apply load_state_keeps in Hload as (Hq & _).
    unfold paths_distinct, queue_paths; simpl. rewrite Hq. constructor.
  - intros y z _ Hstep IH. by eapply paths_distinct_step.
Qed.

End Distinct.

(** C1, as the code has it: [add_to_queue] makes no test on the queue
    and returns nothing: a path that can be stat'ed, and whose
    modification time converts to a date, is appended as a new pending
    job, even when the queue holds a job for it; any other path leaves
    the queue as it is.  Duplicates are kept out by the scanner: a scan
    yields no path that is in the queue or completed, so, the directory
    walk yielding each path once, in every state the two threads can
    reach the queue holds at most one job per path. *)
Theorem one_job_per_path :
  (∀ p m c st,
     fs_stat E (now (elapse E c)) p = Some st →
     processing_queue (add_to_queue E p m c).1
     = if fromtimestamp_ok E (st_mtime st)
       then processing_queue m ++ [new_job p st (now (elapse E c))]
       else processing_queue m)
  ∧ (∀ p m c,
       fs_stat E (now (elapse E c)) p = None →
       processing_queue (add_to_queue E p m c).1 = processing_queue m)
  ∧ (∀ m t p, p ∈ scan_for_new_files E cfg m t →
              (p ∉ queue_paths m) ∧ (p ∉ completed_files m))
  ∧ ((∀ t entries, rglob E t = Some entries → NoDup entries.*1) →
     ∀ s, reachable E cfg s → NoDup (queue_paths (monitor s))).
Proof.
  split; [|split; [|split]].
  - intros p m c st Hst. by rewrite add_to_queue_queue, Hst.
  - intros p m c Hst. by rewrite add_to_queue_queue, Hst.
  - apply scan_not_queued.
  - intros Hwalk s Hreach.
    apply (paths_distinct_reachable Hwalk) in Hreach.
    unfold paths_distinct in Hreach. by apply NoDup_app in Hreach as [? _].
Qed.

(** *** The counters stay in the table *)

Lemma stats_add_dom (key : string) (n : Z) (s s' : gmap string json) :
  stats_add key n s = Some s' → dom s ⊆ dom s'.
Proof.
  unfold stats_add. destruct (s !! key) as [v|]; [|done]. simpl.
  destruct (py_add v n) as [v'|]; [|done]. simpl.
  intros [= <-]. rewrite dom_insert_L. set_solver.
Qed.

Lemma record_failure_dom (job : ProcessingJob) (m : JavSPMonitor) :
  dom (stats m) ⊆ dom (stats (record_failure job m).2).
Proof.
  unfold record_failure.
  destruct (stats_add _ _ _) as [s|] eqn:Hs; simpl; [|done].
  by eapply stats_add_dom.
Qed.

Lemma record_success_dom (job : ProcessingJob) (t : Z) (m : JavSPMonitor) :
  dom (stats m) ⊆ dom (stats (record_success job t m).2).
Proof.
  unfold record_success.
  destruct (stats_add "files_processed" 1 _) as [s1|] eqn:H1;
    [|apply record_failure_dom].
  apply stats_add_dom in H1.
  destruct (stats_add "total_processing_time" _ s1) as [s2|] eqn:H2.
  - apply stats_add_dom in H2. simpl. by etransitivity.
  - etransitivity; [exact H1|]. apply (record_failure_dom _ (with_stats s1 m)).
Qed.

Lemma process_file_stats_dom (fuel : nat) (job : ProcessingJob) (m : JavSPMonitor)
    (c : clock) r job' m' c' :
  process_file E cfg fuel job m c = Some (r, job', m', c') →
  dom (stats m) ⊆ dom (stats m').
Proof.
  unfold process_file, process_file_enter.
  destruct (stability_loop E cfg fuel (file_path job) 0 c) as [[[] c1]|]; [| | |done].
  - destruct (javsp E (now c1)) as [rc d|]; [destruct (rc =? 0)|];
      intros [= Heq <-];
      match type of Heq with
      | record_success ?j ?t ?mm = _ =>
          pose proof (record_success_dom j t mm) as Hdom
      | record_failure ?j ?mm = _ =>
          pose proof (record_failure_dom j mm) as Hdom
      end; by rewrite Heq in Hdom.
  - by intros [= <- <- <- <-].
  - intros [= Heq <-].
    match type of Heq with
    | record_failure ?j ?mm = _ => pose proof (record_failure_dom j mm) as Hdom
    end. by rewrite Heq in Hdom.
Qed.

(** No step removes a path from the completed set or a key from the
    table of counters. *)
Lemma step_keeps (s s' : system) :
  step E cfg s s' →
  completed_files (monitor s) ⊆ completed_files (monitor s')
  ∧ dom (stats (monitor s)) ⊆ dom (stats (monitor s')).
Proof.
  destruct 1 as [m w t | m p rest w c | m todo w t |  |  |  |  |  |  |  | 
                 | m todo i t s Hadd |  | m todo i t s Hadd |  | m todo i job Hi | m todo i s Hadd |  |  |  |  ];
    simpl; try done;
    try match goal with
        | |- context [enable_hash_check cfg] =>
            by destruct (enable_hash_check cfg)
        end.
  - by destruct (add_to_queue_rest p m c) as [-> ->].
  - split; [done|]. rewrite dom_insert_L. apply union_subseteq_r.
  - split; [done|]. by eapply stats_add_dom.
  - split; [done|]. by eapply stats_add_dom.
  - split; [apply union_subseteq_r|done].
  - split; [done|]. by eapply stats_add_dom.
Qed.

(** In every state the monitor reaches, the table of counters holds the
    four entries [__init__] put there. *)
Lemma counters_present_reachable (s : system) :
  reachable E cfg s → dom initial_stats ⊆ dom (stats (monitor s)).
Proof.
  intros (disk & m0 & Hload & Hreach).
  eapply (rtc_ind_r (λ s, dom initial_stats ⊆ dom (stats (monitor s))));
    [| |exact Hreach].
  - by apply load_state_keeps in Hload as (_ & _ & Hdom & _).
  - intros y z _ Hstep IH. apply step_keeps in Hstep as [_ Hdom]. by etransitivity.
Qed.

(** *** A turn of the worker, write by write

    Followed write by write with the scan loop quiet, a turn of the
    worker ends in the state [process_queue_iteration] computes. *)

Lemma monitor_eq (m1 m2 : JavSPMonitor) :
  processing_queue m1 = processing_queue m2 →
  completed_files m1 = completed_files m2 →
  current_job m1 = current_job m2 →
  stats m1 = stats m2 →
  m1 = m2.
Proof. destruct m1, m2; simpl. by intros -> -> -> ->. Qed.

(** Lines 222 and 223. *)
Lemma steps_enter (m : JavSPMonitor) (todo : list string) (i : nat)
    (job : ProcessingJob) :
  first_pending (processing_queue m) = Some (i, job) →
  rtc (step E cfg)
    {| monitor := m; new_files := todo; worker := Idle |}
    {| monitor := with_current (Some (set_status processing job))
                    (with_queue (<[i := set_status processing job]> (processing_queue m)) m);
       new_files := todo; worker := Busy i |}.
Proof.
  intros Hfirst. destruct (first_pending_Some _ _ _ Hfirst) as [Hi _].
  eapply rtc_l; [by apply step_pick|].
  apply rtc_once. apply (step_enter _ _ _ _ _ (set_status processing job)).
  simpl. apply list_lookup_insert_eq. by eapply lookup_lt_Some.
Qed.

(** From the job marked failed to the end of the turn. *)
Lemma steps_fail (m : JavSPMonitor) (todo : list string) (i : nat) :
  rtc (step E cfg)
    {| monitor := m; new_files := todo; worker := Failing i |}
    (match stats_add "files_failed" 1 (stats m) with
     | Some s =>
         {| monitor := with_queue (cleanup (processing_queue m))
                         (with_current None (with_stats s m));
            new_files := todo; worker := Idle |}
     | None =>
         {| monitor := with_current None m; new_files := todo; worker := Ended |}
     end).
Proof.
  destruct (stats_add "files_failed" 1 (stats m)) as [s|] eqn:Hadd.
  - eapply rtc_l; [by apply step_fail_count|].
    eapply rtc_l; [apply step_leave|].
    apply rtc_once. apply (step_cleanup _ _ (with_current None (with_stats s m))).
  - eapply rtc_l; [by apply step_fail_raises|].
    apply rtc_once. apply step_raise.
Qed.

Lemma steps_record_failure (m : JavSPMonitor) (todo : list string) (i : nat)
    (job : ProcessingJob) (q : list ProcessingJob) (m1 : JavSPMonitor) :
  processing_queue m = <[i := set_status failed job]> q →
  processing_queue m1 = q →
  completed_files m = completed_files m1 →
  stats m = stats m1 →
  rtc (step E cfg)
    {| monitor := m; new_files := todo; worker := Failing i |}
    (after_turn todo i (record_failure job m1).1.1 (record_failure job m1).1.2
       (record_failure job m1).2).
Proof.
  intros Hq Hq1 Hdone Hstats.
  pose proof (steps_fail m todo i) as Hrun.
  unfold record_failure. rewrite <- Hstats.
  destruct (stats_add "files_failed" 1 (stats m)) as [s|]; simpl.
  - replace (with_queue _ (with_current None (with_stats s m1)))
      with (with_queue (cleanup (processing_queue m))
              (with_current None (with_stats s m))); [done|].
    apply monitor_eq; simpl; [by rewrite Hq, Hq1|done..].
  - replace (with_queue _ (with_current None m1)) with (with_current None m); [done|].
    apply monitor_eq; simpl; [by rewrite Hq, Hq1|done..].
Qed.

(** Rewrites the monitor of the state a run starts from. *)
Ltac monitor_is mm' :=
  match goal with
  | |- rtc _ {| monitor := ?mm; new_files := _; worker := _ |} _ =>
      replace mm with mm';
        [|try (unfold write_job, with_current, with_queue, with_stats, with_completed;
               simpl; by rewrite ?alter_insert)]
  end.

(** From line 226 to the end of the turn. *)
Lemma steps_from_busy (fuel : nat) (m : JavSPMonitor) (c : clock)
    (todo : list string) (i : nat) (job : ProcessingJob) r job' m' c' :
  first_pending (processing_queue m) = Some (i, job) →
  process_file E cfg fuel job m c = Some (r, job', m', c') →
  rtc (step E cfg)
    {| monitor := with_current (Some (set_status processing job))
                    (with_queue (<[i := set_status processing job]> (processing_queue m)) m);
       new_files := todo; worker := Busy i |}
    (after_turn todo i r job' m').
Proof.
  intros Hfirst Hrun.
  destruct (first_pending_Some _ _ _ Hfirst) as [Hi _].
  pose proof (lookup_lt_Some _ _ _ Hi) as Hlt.
  destruct m as [q cf cur st]. simpl in *.
  unfold process_file, process_file_enter in Hrun. cbv beta iota zeta in Hrun.
  set (job1 := set_status processing job) in *.
  set (m1 := with_current (Some job1)
               {| processing_queue := q; completed_files := cf;
                  current_job := cur; stats := st |}) in *.
  unfold with_current, with_queue; simpl.
  destruct (stability_loop E cfg fuel (file_path job) 0 c) as [[[| |e] c1]|] eqn:Hgate;
    [| | |done].
  - set (job2 := if enable_hash_check cfg
                 then set_hash (calculate_file_hash E cfg (file_path job) c1) job1
                 else job1) in *.
    eapply rtc_l.
    { eapply (step_hash _ _ _ _ i job1 fuel c c1);
        [simpl; by apply list_lookup_insert_eq|exact Hgate]. }
    monitor_is {| processing_queue := <[i := job2]> q; completed_files := cf;
                  current_job := Some job2; stats := st |}.
    2:{ subst job2. destruct (enable_hash_check cfg); [|done].
        unfold write_job, with_current, with_queue. simpl. by rewrite alter_insert. }
    destruct (javsp E (now c1)) as [rc d|] eqn:Hexit.
    + destruct (rc =? 0) eqn:Hrc.
      * apply Z.eqb_eq in Hrc. subst rc.
        eapply rtc_l; [by eapply step_exit_zero|].
        set (t := now (elapse E {| now := now c1 + Z.of_N d; ops := ops c1 |}) - now c1)
          in *.
        clearbody t.
        monitor_is {| processing_queue := <[i := set_status completed job2]> q;
                      completed_files := cf;
                      current_job := Some (set_status completed job2); stats := st |}.
        injection Hrun as Hrun <-. unfold record_success in Hrun.
        change (stats m1) with st in Hrun.
        destruct (stats_add "files_processed" 1 st) as [s1|] eqn:H1.
        -- eapply rtc_l; [by eapply step_count|].
           unfold with_stats; simpl.
           destruct (stats_add "total_processing_time" t s1) as [s2|] eqn:H2.
           ++ injection Hrun as <- <- <-.
              eapply rtc_l; [by eapply step_time|].
              eapply rtc_l.
              { eapply (step_complete _ _ _ _ i (set_status completed job2)).
                simpl. by apply list_lookup_insert_eq. }
              eapply rtc_l; [apply step_leave|].
              apply rtc_once.
              unfold after_turn, with_current, with_queue, with_completed, with_stats.
              simpl.
              match goal with
              | |- step _ _ {| monitor := ?mm; new_files := _; worker := _ |} _ =>
                  apply (step_cleanup _ _ mm)
              end.
           ++ eapply rtc_l; [by eapply step_time_raises|].
              pose proof (steps_record_failure
                            (write_job i (set_status failed)
                               {| processing_queue := <[i := set_status completed job2]> q;
                                  completed_files := cf;
                                  current_job := Some (set_status completed job2);
                                  stats := s1 |})
                            todo i (set_status completed job2) q
                            (with_stats s1 m1)) as Hfail.
              rewrite Hrun in Hfail. apply Hfail; simpl; [|done..].
              by rewrite alter_insert.
        -- eapply rtc_l; [by eapply step_count_raises|].
           pose proof (steps_record_failure
                         (write_job i (set_status failed)
                            {| processing_queue := <[i := set_status completed job2]> q;
                               completed_files := cf;
                               current_job := Some (set_status completed job2);
                               stats := st |})
                         todo i (set_status completed job2) q
                         m1) as Hfail.
           rewrite Hrun in Hfail. apply Hfail; simpl; [|done..].
           by rewrite alter_insert.
      * apply Z.eqb_neq in Hrc. injection Hrun as Hrun <-.
        eapply rtc_l; [by eapply step_exit_nonzero|].
        pose proof (steps_record_failure
                      (write_job i (set_status failed)
                         {| processing_queue := <[i := job2]> q; completed_files := cf;
                            current_job := Some job2; stats := st |})
                      todo i job2 q
                      m1) as Hfail.
        rewrite Hrun in Hfail. apply Hfail; simpl; [|done..].
        by rewrite alter_insert.
    + injection Hrun as Hrun <-.
      eapply rtc_l; [by eapply step_invocation_raises|].
      pose proof (steps_record_failure
                    (write_job i (set_status failed)
                       {| processing_queue := <[i := job2]> q; completed_files := cf;
                          current_job := Some job2; stats := st |})
                    todo i job2 q
                    m1) as Hfail.
      rewrite Hrun in Hfail. apply Hfail; simpl; [|done..].
      by rewrite alter_insert.
  - injection Hrun as <- <- <- <-.
    eapply rtc_l.
    { eapply (step_cancel _ _ _ _ i job1 fuel c c1);
        [simpl; by apply list_lookup_insert_eq|exact Hgate]. }
    apply rtc_once.
    unfold after_turn, with_current, with_queue. simpl.
    match goal with
    | |- step _ _ {| monitor := ?mm; new_files := _; worker := _ |} _ =>
        apply (step_cleanup _ _ mm)
    end.
  - injection Hrun as Hrun <-.
    eapply rtc_l.
    { eapply (step_gate_raises _ _ _ _ i job1 fuel c e c1);
        [simpl; by apply list_lookup_insert_eq|exact Hgate]. }
    pose proof (steps_record_failure
                  (write_job i (set_status failed)
                     {| processing_queue := <[i := job1]> q; completed_files := cf;
                        current_job := Some job1; stats := st |})
                  todo i job1 q
                  m1) as Hfail.
    rewrite Hrun in Hfail. apply Hfail; simpl; [|done..].
    by rewrite alter_insert.
Qed.

Lemma worker_turn_steps (fuel : nat) (m : JavSPMonitor) (c : clock)
    (todo : list string) (i : nat) (job : ProcessingJob) r job' m' c' :
  first_pending (processing_queue m) = Some (i, job) →
  process_file E cfg fuel job m c = Some (r, job', m', c') →
  rtc (step E cfg) {| monitor := m; new_files := todo; worker := Idle |}
      (after_turn todo i r job' m').
Proof.
  intros Hfirst Hrun.
  etransitivity; [by apply steps_enter|]. by eapply steps_from_busy.
Qed.


(** X29: the steps of the worker, taken one write after the other with
    the scan loop quiet, make up the turn [process_queue_iteration]
    computes: from the state in which the worker picks a job they lead
    to the monitor the turn answers, with the worker between two turns
    again, or gone when the turn raises. *)
Theorem worker_turn_write_by_write (fuel : nat) (m : JavSPMonitor) (c : clock)
    (todo : list string) (i : nat) (job : ProcessingJob) r m' c' :
  first_pending (processing_queue m) = Some (i, job) →
  process_queue_iteration E cfg fuel m c = Some (r, m', c') →
  rtc (step E cfg)
    {| monitor := m; new_files := todo; worker := Idle |}
    {| monitor := m'; new_files := todo;
       worker := match r with Ok _ => Idle | Raise _ => Ended end |}.
Proof.
  intros Hfirst Hturn. unfold process_queue_iteration in Hturn.
  rewrite Hfirst in Hturn.
  destruct (process_file E cfg fuel job m c) as [[[[rf job'] mf] cf]|] eqn:Hfile;
    [|done].
  pose proof (worker_turn_steps fuel m c todo i job rf job' mf cf Hfirst Hfile) as Hrun.
  destruct rf as [b|e]; injection Hturn as <- <- <-; exact Hrun.
Qed.

End Threads.

Lemma worker_turn_write_by_write_witness :
  first_pending (processing_queue two_jobs) = Some (0%nat, movie_job)
  ∧ ∃ m' c',
      process_queue_iteration (steady_env (Exited 0 7000)) sample_settings 3 two_jobs epoch
      = Some (Ok tt, m', c')
      ∧ queue_paths m' = [trailer]
      ∧ completed_files m' = {[ movie ]}
      ∧ rtc (step (steady_env (Exited 0 7000)) sample_settings)
          {| monitor := two_jobs; new_files := []; worker := Idle |}
          {| monitor := m'; new_files := []; worker := Idle |}.
Proof.
  assert (first_pending (processing_queue two_jobs) = Some (0%nat, movie_job))
    as Hfirst by (vm_compute; reflexivity).
  split; [exact Hfirst|].
  destruct (process_queue_iteration (steady_env (Exited 0 7000)) sample_settings 3
              two_jobs epoch) as [[[[[]|e] m'] c']|] eqn:Hturn;
    try (vm_compute in Hturn; discriminate Hturn).
  exists m', c'. split; [reflexivity|].
  pose proof (worker_turn_write_by_write (steady_env (Exited 0 7000)) sample_settings
                3 two_jobs epoch [] 0 movie_job (Ok tt) m' c' Hfirst Hturn) as Hrun.
  vm_compute in Hturn. injection Hturn as <- <-.
  split; [reflexivity|]. split; [|exact Hrun].
  vm_compute. reflexivity.
Defined.




(** C1 as stated fails: the second push of a path whose job is still
    pending is accepted like the first, and the queue then holds two
    live jobs for the path. *)
Lemma add_to_queue_accepts_duplicate :
  queue_paths (add_to_queue (steady_env InvocationRaises) movie initial_monitor epoch).1
  = [movie]
  ∧ queue_paths
      (add_to_queue (steady_env InvocationRaises) movie
         (add_to_queue (steady_env InvocationRaises) movie initial_monitor epoch).1
         epoch).1
    = [movie; movie]
  ∧ status <$> processing_queue
      (add_to_queue (steady_env InvocationRaises) movie
         (add_to_queue (steady_env InvocationRaises) movie initial_monitor epoch).1
         epoch).1
    = [pending; pending].
Proof. vm_compute. done. Qed.

Lemma steady_env_walk_distinct (o : proc_result) :
  ∀ t entries, rglob (steady_env o) t = Some entries → NoDup entries.*1.
Proof.
  intros t entries [= <-]. simpl.
  eapply bool_decide_unpack. vm_compute. exact I.
Qed.

(** A run of the two threads on the quiet machine: a scan finds the two
    video files, both are queued, the worker picks the first and the
    external command cannot be started. *)
Lemma steady_run :
  ∃ s, reachable (steady_env InvocationRaises) sample_settings s
       ∧ worker s = Idle
       ∧ new_files s = []
       ∧ queue_paths (monitor s) = [trailer]
       ∧ stats (monitor s) !! "files_failed" = Some (JNum 1).
Proof.
  eexists. split.
  - exists None, initial_monitor. split; [done|]. unfold start_system.
    eapply rtc_l; [apply (step_scan _ _ _ _ 0)|].
    assert (scan_for_new_files (steady_env InvocationRaises) sample_settings
              initial_monitor 0 = [movie; trailer]) as -> by (vm_compute; reflexivity).
    eapply rtc_l; [apply (step_add _ _ _ _ _ _ epoch)|].
    eapply rtc_l; [apply (step_add _ _ _ _ _ _ epoch)|].
    eapply (worker_turn_steps _ _ 3%nat _ epoch); reflexivity.
  - vm_compute. done.
Qed.

Lemma one_job_per_path_witness :
  (∀ t entries, rglob (steady_env InvocationRaises) t = Some entries → NoDup entries.*1)
  ∧ ∃ s, reachable (steady_env InvocationRaises) sample_settings s
         ∧ queue_paths (monitor s) = [trailer]
         ∧ NoDup (queue_paths (monitor s)).
Proof.
  split; [exact (steady_env_walk_distinct InvocationRaises)|].
  destruct steady_run as (s & Hreach & _ & _ & Hpaths & _).
  exists s. split; [exact Hreach|]. split; [exact Hpaths|].
  exact (proj2 (proj2 (proj2
           (one_job_per_path (steady_env InvocationRaises) sample_settings)))
           (steady_env_walk_distinct InvocationRaises) s Hreach).
Defined.

Lemma queue_holds_pending_jobs_witness :
  ∃ s, reachable (steady_env InvocationRaises) sample_settings s
       ∧ worker s = Idle
       ∧ queue_paths (monitor s) = [trailer]
       ∧ Forall (λ j, status j = pending) (processing_queue (monitor s)).
Proof.
  destruct steady_run as (s & Hreach & Hidle & _ & Hpaths & _).
  exists s. split; [exact Hreach|]. split; [exact Hidle|]. split; [exact Hpaths|].
  exact (proj2 (queue_holds_pending_jobs (steady_env InvocationRaises) sample_settings)
           s Hreach Hidle).
Defined.

(** ** Fingerprint *)

Section Fingerprint.

Lemma chunk_size_pos : (0 < chunk_size)%nat.
Proof. apply Nat.ltb_lt. vm_compute. reflexivity. Qed.

Lemma read_head_turn (fuel limit : nat) (content : list Byte.byte)
    (pos total_read : nat) (hashed : list Byte.byte) :
  read_head (S fuel) limit content pos total_read hashed
  = if bool_decide (total_read < limit)%nat then
      let chunk := f_read content pos (chunk_size `min` (limit - total_read)) in
      match chunk with
      | [] => hashed
      | _ :: _ =>
          read_head fuel limit content (pos + length chunk)
            (total_read + length chunk) (hashed ++ chunk)
      end
    else hashed.
Proof. reflexivity. Qed.

Lemma read_tail_turn (fuel : nat) (content : list Byte.byte) (pos : nat)
    (hashed : list Byte.byte) :
  read_tail (S fuel) content pos hashed
  = match f_read content pos chunk_size with
    | [] => hashed
    | b :: chunk =>
        read_tail fuel content (pos + length (b :: chunk)) (hashed ++ b :: chunk)
    end.
Proof. reflexivity. Qed.

(** The first loop hashes the first [limit - total_read] bytes from the
    current position. *)
Lemma read_head_spec (limit : nat) (content : list Byte.byte) :
  ∀ fuel pos total_read hashed,
    (length (drop pos content) < fuel)%nat →
    read_head fuel limit content pos total_read hashed
    = hashed ++ take (limit - total_read) (drop pos content).
Proof.
  pose proof chunk_size_pos as Hcs.
  induction fuel as [|fuel IH]; intros pos total_read hashed Hfuel; [lia|].
  rewrite read_head_turn. cbv zeta. case_bool_decide as Hlt.
  2:{ replace (limit - total_read)%nat with 0%nat by lia. by rewrite app_nil_r. }
  unfold f_read.
  set (n := (chunk_size `min` (limit - total_read))%nat).
  assert (0 < n ≤ limit - total_read)%nat as Hn by (subst n; lia).
  destruct (take n (drop pos content)) as [|b chunk] eqn:Hchunk.
  - apply (f_equal length) in Hchunk. rewrite length_take in Hchunk. simpl in Hchunk.
    assert (drop pos content = []) as -> by (apply length_zero_iff_nil; lia).
    by rewrite take_nil, app_nil_r.
  - rewrite <- Hchunk.
    assert (length (take n (drop pos content)) ≠ 0)%nat as Hne
      by (rewrite Hchunk; simpl; lia).
    rewrite length_take in Hne. rewrite length_take.
    rewrite IH.
    2:{ rewrite <- drop_drop, length_drop. lia. }
    rewrite <- app_assoc. f_equal.
    rewrite <- drop_drop.
    set (D := drop pos content) in *.
    destruct (decide (n ≤ length D)%nat) as [Hle|Hgt].
    + rewrite Nat.min_l by done.
      replace (limit - (total_read + n))%nat with (limit - total_read - n)%nat by lia.
      rewrite take_take_drop. f_equal. lia.
    + rewrite Nat.min_r by lia.
      rewrite drop_all, take_nil, app_nil_r.
      by rewrite !take_ge by lia.
Qed.

(** The second loop hashes everything from the current position on. *)
Lemma read_tail_spec (content : list Byte.byte) :
  ∀ fuel pos hashed,
    (length (drop pos content) < fuel)%nat →
    read_tail fuel content pos hashed = hashed ++ drop pos content.
Proof.
  pose proof chunk_size_pos as Hcs.
  induction fuel as [|fuel IH]; intros pos hashed Hfuel; [lia|].
  rewrite read_tail_turn. unfold f_read.
  set (n := chunk_size) in *. clearbody n.
  destruct (take n (drop pos content)) as [|b chunk] eqn:Hchunk.
  - apply (f_equal length) in Hchunk. rewrite length_take in Hchunk. simpl in Hchunk.
    assert (drop pos content = []) as -> by (apply length_zero_iff_nil; lia).
    by rewrite app_nil_r.
  - rewrite <- Hchunk.
    assert (length (take n (drop pos content)) ≠ 0)%nat as Hne
      by (rewrite Hchunk; simpl; lia).
    rewrite length_take in Hne.
    rewrite IH.
    2:{ rewrite length_take, <- drop_drop, length_drop. lia. }
    rewrite <- app_assoc. f_equal.
    rewrite length_take, <- drop_drop.
    set (D := drop pos content) in *.
    destruct (decide (n ≤ length D)%nat) as [Hle|Hgt].
    + rewrite Nat.min_l by done. apply take_drop.
    + rewrite Nat.min_r by lia.
      by rewrite drop_all, app_nil_r, take_ge by lia.
Qed.

Lemma hashed_bytes_upto_spec (limit : nat) (content : list Byte.byte) :
  hashed_bytes_upto limit content
  = take limit content ++ drop (length content - limit) content.
Proof.
  unfold hashed_bytes_upto.
  rewrite read_head_spec by (rewrite drop_0; lia).
  rewrite read_tail_spec by (rewrite length_drop; lia).
  rewrite drop_0, Nat.sub_0_r. simpl. f_equal. f_equal. lia.
Qed.

Context (E : os_env) (cfg : settings).

(** C10: the fingerprint [calculate_file_hash] gives a readable file is
    the MD5 of its first [max_read] bytes (1 MB, fewer for a shorter
    file) followed by its last [max_read] bytes (fewer for a shorter
    file), not of the whole content: two files of one length that agree
    on these two stretches get the same fingerprint, whatever lies in
    between.  There is no fingerprint ([None], no exception) when
    fingerprints are switched off and when the file cannot be read. *)
Theorem fingerprint_of_head_and_tail :
  (∀ content,
     hashed_bytes content
     = take max_read content ++ drop (length content - max_read) content)
  ∧ (enable_hash_check cfg = true →
     ∀ path c content,
       fs_read E (now c) path = Some content →
       calculate_file_hash E cfg path c
       = Some (md5_hexdigest E
                 (take max_read content ++ drop (length content - max_read) content)))
  ∧ (∀ path1 path2 c1 c2 content1 content2,
       fs_read E (now c1) path1 = Some content1 →
       fs_read E (now c2) path2 = Some content2 →
       length content1 = length content2 →
       take max_read content1 = take max_read content2 →
       drop (length content1 - max_read) content1
       = drop (length content2 - max_read) content2 →
       calculate_file_hash E cfg path1 c1 = calculate_file_hash E cfg path2 c2)
  ∧ (enable_hash_check cfg = false →
     ∀ path c, calculate_file_hash E cfg path c = None)
  ∧ (∀ path c, fs_read E (now c) path = None → calculate_file_hash E cfg path c = None).
Proof.
  split; [|split; [|split; [|split]]].
  - intros content. apply hashed_bytes_upto_spec.
  - intros Hon path c content Hread.
    unfold calculate_file_hash, calculate_file_hash_of, hashed_bytes.
    by rewrite Hread, Hon, hashed_bytes_upto_spec.
  - intros path1 path2 c1 c2 content1 content2 Hread1 Hread2 Hlen Hhead Htail.
    unfold calculate_file_hash, calculate_file_hash_of, hashed_bytes.
    rewrite Hread1, Hread2.
    destruct (enable_hash_check cfg); simpl; [|done].
    by rewrite !hashed_bytes_upto_spec, Hhead, Htail.
  - intros Hoff path c. unfold calculate_file_hash, calculate_file_hash_of.
    by rewrite Hoff.
  - intros path c Hread. unfold calculate_file_hash, calculate_file_hash_of.
    rewrite Hread. by destruct (enable_hash_check cfg).
Qed.

End Fingerprint.

Lemma sandwich_of_parts (n : nat) (middle : Byte.byte) :
  length (sandwich_of n middle) = (2 * n + 1)%nat
  ∧ take n (sandwich_of n middle) = replicate n Byte.x00
  ∧ drop (length (sandwich_of n middle) - n) (sandwich_of n middle)
    = replicate n Byte.xff.
Proof.
  assert (length (sandwich_of n middle) = (2 * n + 1)%nat) as Hlen.
  { unfold sandwich_of. rewrite length_app, length_cons, !length_replicate. lia. }
  split; [exact Hlen|]. split.
  - unfold sandwich_of. by rewrite take_app_length' by by rewrite length_replicate.
  - rewrite Hlen. unfold sandwich_of.
    rewrite cons_middle, app_assoc.
    rewrite drop_app_length'; [done|].
    rewrite length_app, length_replicate. simpl. lia.
Qed.

Lemma fingerprint_of_head_and_tail_witness :
  enable_hash_check sample_settings = true
  ∧ fs_read sandwich_env 0 movie = Some (sandwich Byte.x01)
  ∧ fs_read sandwich_env 0 trailer = Some (sandwich Byte.x02)
  ∧ length (sandwich Byte.x01) = length (sandwich Byte.x02)
  ∧ sandwich Byte.x01 ≠ sandwich Byte.x02
  ∧ calculate_file_hash sandwich_env sample_settings movie epoch
    = calculate_file_hash sandwich_env sample_settings trailer epoch
  ∧ is_Some (calculate_file_hash sandwich_env sample_settings movie epoch).
Proof.
  assert (fs_read sandwich_env 0 movie = Some (sandwich Byte.x01)) as Hread1
    by reflexivity.
  assert (fs_read sandwich_env 0 trailer = Some (sandwich Byte.x02)) as Hread2
    by reflexivity.
  destruct (sandwich_of_parts max_read Byte.x01) as (Hlen1 & Hhead1 & Htail1).
  destruct (sandwich_of_parts max_read Byte.x02) as (Hlen2 & Hhead2 & Htail2).
  split; [reflexivity|]. split; [exact Hread1|]. split; [exact Hread2|].
  assert (length (sandwich Byte.x01) = length (sandwich Byte.x02)) as Hlen
    by (unfold sandwich; congruence).
  split; [exact Hlen|]. split.
  { unfold sandwich, sandwich_of. intros Heq.
    apply app_inv_head in Heq. discriminate Heq. }
  destruct (fingerprint_of_head_and_tail sandwich_env sample_settings)
    as (_ & Hmd5 & Hsame & _).
  split.
  - apply (Hsame movie trailer epoch epoch _ _ Hread1 Hread2 Hlen);
      unfold sandwich; congruence.
  - rewrite (Hmd5 eq_refl movie epoch _ Hread1). by eexists.
Defined.

Example hashed_bytes_long_file :
  hashed_bytes_upto 2 [Byte.x01; Byte.x02; Byte.x03; Byte.x04; Byte.x05]
  = [Byte.x01; Byte.x02; Byte.x04; Byte.x05].
Proof. vm_compute. reflexivity. Qed.

(** A file shorter than the limit is hashed twice over. *)
Example hashed_bytes_short_file :
  hashed_bytes_upto 4 [Byte.x01; Byte.x02] = [Byte.x01; Byte.x02; Byte.x01; Byte.x02].
Proof. vm_compute. reflexivity. Qed.

(** ** State Store *)

Section StateStore.

Context (E : os_env).

Lemma add_members_strings (l : list string) :
  ∀ s, add_members s (JStr <$> l) = SetUpdated (s ∪ list_to_set l).
Proof.
  induction l as [|p l IH]; intros s; simpl.
  - by rewrite (right_id_L ∅ (∪)).
  - rewrite IH. by rewrite (assoc_L (∪)).
Qed.

Lemma union_absorbs (a b : gmap string json) : dom b ⊆ dom a → a ∪ b = a.
Proof.
  intros Hdom. apply map_eq. intros k. rewrite lookup_union.
  destruct (a !! k) as [x|] eqn:Ha; [by destruct (b !! k)|].
  assert (b !! k = None) as ->; [|done].
  apply not_elem_of_dom. intros Hk. apply Hdom in Hk.
  by apply not_elem_of_dom in Ha.
Qed.

(** What [load_state] finds in a document written by [save_state]. *)
Lemma load_saved_state (m0 m : JavSPMonitor) (t : Z) :
  load_state m0 (Some (Document (state_document E m t)))
  = Some (with_completed (completed_files m0 ∪ completed_files m)
            (with_stats (stats m ∪ stats m0) m0)).
Proof.
  unfold load_state, state_document.
  rewrite lookup_insert_eq.
  rewrite lookup_insert_ne by done. rewrite lookup_insert_eq.
  cbn [default from_option id dict_update set_update with_stats completed_files].
  rewrite add_members_strings. by rewrite list_to_set_elements_L.
Qed.

(** C7: a snapshot written by [save_state] and read back by
    [load_state] into a fresh monitor gives the counters and the
    completed set of the monitor that was saved (the snapshot carrying
    the four counters, as every state of the monitor does). *)
Theorem state_round_trip (m : JavSPMonitor) (c : clock) (disk : option file_content) :
  dom initial_stats ⊆ dom (stats m) →
  ∃ m',
    load_state initial_monitor (save_state E m c WriteOk disk) = Some m'
    ∧ stats m' = stats m
    ∧ completed_files m' = completed_files m
    ∧ (∀ key, stats m' !! key = stats m !! key)
    ∧ (∀ path, path ∈ completed_files m' ↔ path ∈ completed_files m).
Proof.
  intros Hdom. unfold save_state. rewrite load_saved_state.
  eexists. split; [reflexivity|]. simpl.
  rewrite (union_absorbs _ _ Hdom), (left_id_L ∅ (∪)).
  done.
Qed.

(** A failed write leaves nothing to load: the monitor starts from zero. *)
Lemma load_after_failed_write (m : JavSPMonitor) (c : clock) :
  load_state initial_monitor (save_state E m c WriteFails None) = Some initial_monitor
  ∧ load_state initial_monitor (save_state E m c OpenFails None) = Some initial_monitor.
Proof. done. Qed.

End StateStore.

Lemma seasoned_monitor_counters : dom initial_stats ⊆ dom (stats seasoned_monitor).
Proof. unfold seasoned_monitor; simpl. rewrite !dom_insert_L. set_solver. Qed.

Lemma state_round_trip_witness :
  dom initial_stats ⊆ dom (stats seasoned_monitor)
  ∧ ∃ m',
      load_state initial_monitor
        (save_state (steady_env InvocationRaises) seasoned_monitor epoch WriteOk None)
      = Some m'
      ∧ stats m' !! "files_processed" = Some (JNum 42)
      ∧ completed_files m' = {[ movie; "/app/input/older.avi" ]}.
Proof.
  split; [exact seasoned_monitor_counters|].
  destruct (state_round_trip (steady_env InvocationRaises) seasoned_monitor epoch None
              seasoned_monitor_counters) as (m' & Hload & Hstats & Hdone & _).
  exists m'. split; [exact Hload|]. split.
  - rewrite Hstats. reflexivity.
  - exact Hdone.
Defined.

(** * Further properties of the code *)

(** ** Suffixes and the video test *)

Section Suffixes.

Lemma ascii_lower_keeps_separators (a : ascii) :
  Ascii.eqb (ascii_lower a) "/" = Ascii.eqb a "/"
  ∧ Ascii.eqb (ascii_lower a) "." = Ascii.eqb a ".".
Proof. by destruct a as [[] [] [] [] [] [] [] []]. Qed.

Lemma ascii_lower_idemp (a : ascii) : ascii_lower (ascii_lower a) = ascii_lower a.
Proof. by destruct a as [[] [] [] [] [] [] [] []]. Qed.

Lemma lower_idemp (s : string) : lower (lower s) = lower s.
Proof. induction s as [|a s IH]; [done|]. simpl. by rewrite ascii_lower_idemp, IH. Qed.

Lemma lower_length (s : string) : String.length (lower s) = String.length s.
Proof. induction s as [|a s IH]; [done|]. simpl. by rewrite IH. Qed.

Lemma after_last_lower (c : ascii) (s : string) :
  (∀ a, Ascii.eqb (ascii_lower a) c = Ascii.eqb a c) →
  after_last c (lower s) = lower <$> after_last c s.
Proof.
  intros Hc. induction s as [|a s IH]; [done|]. simpl. rewrite IH, Hc.
  destruct (after_last c s); simpl; [done|]. by destruct (Ascii.eqb a c).
Qed.

Lemma split_path_lower (p : string) : split_path (lower p) = lower <$> split_path p.
Proof.
  induction p as [|a p IH]; [done|]. simpl.
  rewrite (proj1 (ascii_lower_keeps_separators a)), IH.
  destruct (Ascii.eqb a "/"); [done|]. by destruct (split_path p).
Qed.

Lemma is_component_lower (part : string) :
  is_component (lower part) = is_component part.
Proof.
  unfold is_component. destruct part as [|a [|b part]]; [done| |]; simpl;
    by rewrite (proj2 (ascii_lower_keeps_separators a)).
Qed.

Lemma path_name_lower (p : string) : path_name (lower p) = lower (path_name p).
Proof.
  unfold path_name. rewrite split_path_lower.
  induction (split_path p) as [|part parts IH] using rev_ind; [done|].
  rewrite fmap_app, !filter_app. simpl.
  rewrite !filter_cons, !filter_nil, is_component_lower.
  destruct (decide (Is_true (is_component part))); simpl.
  - by rewrite !last_snoc.
  - by rewrite !app_nil_r.
Qed.

Lemma suffix_lower (p : string) : suffix (lower p) = lower (suffix p).
Proof.
  unfold suffix. rewrite path_name_lower.
  rewrite after_last_lower by (intros a; apply ascii_lower_keeps_separators).
  destruct (after_last "." (path_name p)) as [ext|]; simpl; [|done].
  rewrite !lower_length.
  by destruct (bool_decide _ && bool_decide _).
Qed.

Context (cfg : settings).

(** X1: the video test looks at the lower-cased suffix only, so two
    paths that differ in the case of ASCII letters get the same
    verdict. *)
Theorem is_video_file_ignores_case (p q : string) :
  lower p = lower q →
  is_video_file cfg p = is_video_file cfg q.
Proof.
  intros Heq. unfold is_video_file.
  rewrite <- (lower_idemp (suffix p)), <- (lower_idemp (suffix q)).
  by rewrite <- !suffix_lower, Heq.
Qed.

(** X2: the configured extensions are compared as they are written: a
    configuration whose extensions all contain an upper-case letter
    matches no file at all; and a name with no dot matches only when the
    empty string is configured. *)
Theorem is_video_file_wants_lower_case_extensions (p : string) :
  ((∀ e, e ∈ video_extensions cfg → lower e ≠ e) → is_video_file cfg p = false)
  ∧ (after_last "." (path_name p) = None →
     "" ∉ video_extensions cfg → is_video_file cfg p = false).
Proof.
  split.
  - intros Hupper. unfold is_video_file. apply bool_decide_eq_false.
    intros Hin. apply (Hupper _ Hin), lower_idemp.
  - intros Hnodot Hempty. unfold is_video_file, suffix. rewrite Hnodot.
    by apply bool_decide_eq_false.
Qed.

End Suffixes.

Lemma is_video_file_ignores_case_witness :
  lower "/app/input/Movie.MP4" = lower "/APP/input/movie.mp4"
  ∧ is_video_file sample_settings "/app/input/Movie.MP4"
    = is_video_file sample_settings "/APP/input/movie.mp4".
Proof.
  assert (lower "/app/input/Movie.MP4" = lower "/APP/input/movie.mp4") as H
    by (vm_compute; reflexivity).
  split; [exact H|].
  exact (is_video_file_ignores_case sample_settings _ _ H).
Defined.

Lemma is_video_file_wants_lower_case_extensions_witness :
  (∀ e, e ∈ video_extensions shouting_settings → lower e ≠ e)
  ∧ is_video_file shouting_settings "/app/input/movie.MP4" = false
  ∧ is_video_file shouting_settings "/app/input/movie.mp4" = false.
Proof.
  assert (∀ e, e ∈ video_extensions shouting_settings → lower e ≠ e) as H.
  { intros e He. simpl in He.
    apply elem_of_cons in He as [->|He]; [discriminate|].
    apply elem_of_cons in He as [->|He]; [discriminate|].
    by apply elem_of_nil in He. }
  split; [exact H|]. split.
  - exact (proj1 (is_video_file_wants_lower_case_extensions shouting_settings _) H).
  - exact (proj1 (is_video_file_wants_lower_case_extensions shouting_settings _) H).
Defined.

(** ** Scanner *)

Section ScannerMore.

Context (E : os_env) (cfg : settings).

(** X3: a scan yields exactly the paths the directory walk lists as
    regular files, with a video suffix, that are neither in the
    completed set nor the path of a queued job (whatever its status);
    without input directory it yields nothing. *)
Theorem scan_for_new_files_yields (m : JavSPMonitor) (t : Z) (p : string) :
  (p ∈ scan_for_new_files E cfg m t ↔
     ∃ entries,
       rglob E t = Some entries
       ∧ (p, true) ∈ entries
       ∧ is_video_file cfg p = true
       ∧ (p ∉ completed_files m)
       ∧ ∀ job, job ∈ processing_queue m → file_path job ≠ p)
  ∧ (rglob E t = None → scan_for_new_files E cfg m t = []).
Proof.
  split; [|by unfold scan_for_new_files; intros ->].
  unfold scan_for_new_files. split.
  - destruct (rglob E t) as [entries|]; [|by intros ?%elem_of_nil].
    intros ([p' f] & -> & [Hp Hin]%list_elem_of_filter)%list_elem_of_fmap.
    simpl in *. apply Is_true_true in Hp.
    apply andb_true_iff in Hp as [Hp Hq]. apply andb_true_iff in Hp as [Hp Hc].
    apply andb_true_iff in Hp as [-> Hv].
    apply negb_true_iff, bool_decide_eq_false in Hq, Hc.
    exists entries. repeat split; try done.
    intros job Hjob Hpath. apply Hq. subst p'. by apply list_elem_of_fmap_2.
  - intros (entries & -> & Hin & Hv & Hc & Hq).
    apply (list_elem_of_fmap_2' fst _ (p, true)); [|done].
    apply list_elem_of_filter. split; [|done]. simpl.
    rewrite Hv, (bool_decide_eq_false_2 _ Hc). simpl.
    apply negb_prop_intro. intros Hqueued%Is_true_true%bool_decide_eq_true.
    apply list_elem_of_fmap in Hqueued as (job & -> & Hjob). by eapply Hq.
Qed.

Lemma add_all_appends (new_files : list string) :
  ∀ m c, ∃ added,
    processing_queue (add_all E new_files m c).1 = processing_queue m ++ added
    ∧ file_path <$> added `sublist_of` new_files
    ∧ Forall (λ j, status j = pending ∧ hash_md5 j = None) added
    ∧ completed_files (add_all E new_files m c).1 = completed_files m
    ∧ stats (add_all E new_files m c).1 = stats m
    ∧ current_job (add_all E new_files m c).1 = current_job m.
Proof.
  induction new_files as [|p rest IH]; intros m c; simpl.
  - exists []. by rewrite app_nil_r.
  - destruct (add_to_queue E p m c) as [m1 c1] eqn:Hadd.
    destruct (IH m1 c1) as (added & Hq & Hsub & Hall & Hdone & Hstats & Hcur).
    assert (m1 = m ∧ c1 = elapse E c →
            ∃ added0,
              processing_queue (add_all E rest m1 c1).1 = processing_queue m ++ added0
              ∧ file_path <$> added0 `sublist_of` p :: rest
              ∧ Forall (λ j, status j = pending ∧ hash_md5 j = None) added0
              ∧ completed_files (add_all E rest m1 c1).1 = completed_files m
              ∧ stats (add_all E rest m1 c1).1 = stats m
              ∧ current_job (add_all E rest m1 c1).1 = current_job m) as Hskip.
    { intros [-> ->]. exists added. split; [done|]. split; [by apply sublist_cons|]. done. }
    unfold add_to_queue, os_stat in Hadd.
    destruct (fs_stat E (now (elapse E c)) p) as [st|];
      [|injection Hadd as <- <-; by apply Hskip].
    destruct (fromtimestamp_ok E (st_mtime st));
      [|injection Hadd as <- <-; by apply Hskip].
    injection Hadd as <- <-.
    exists (new_job p st (now (elapse E c)) :: added).
    rewrite Hq. simpl. rewrite <- app_assoc. split; [done|].
    split; [by apply sublist_skip|]. split; [by constructor|]. done.
Qed.

(** X4: one scan-and-enqueue pass of [run] only appends to the queue:
    the jobs already queued stay as they are, each job added is pending,
    without fingerprint, and for a path the scan has just found (in scan
    order, a path that cannot be stat'ed or dated being skipped); the
    counters, the completed set and the current job are not touched. *)
Theorem scan_and_enqueue_appends (m : JavSPMonitor) (c : clock) :
  ∃ added,
    processing_queue (scan_and_enqueue E cfg m c).1 = processing_queue m ++ added
    ∧ file_path <$> added `sublist_of` scan_for_new_files E cfg m (now c)
    ∧ Forall (λ j, status j = pending ∧ hash_md5 j = None
                   ∧ (file_path j ∉ completed_files m)
                   ∧ file_path j ∉ queue_paths m) added
    ∧ completed_files (scan_and_enqueue E cfg m c).1 = completed_files m
    ∧ stats (scan_and_enqueue E cfg m c).1 = stats m
    ∧ current_job (scan_and_enqueue E cfg m c).1 = current_job m.
Proof.
  unfold scan_and_enqueue.
  destruct (add_all_appends (scan_for_new_files E cfg m (now c)) m c)
    as (added & Hq & Hsub & Hall & Hrest).
  exists added. split; [done|]. split; [done|]. split; [|done].
  apply Forall_forall. intros j Hj.
  rewrite Forall_forall in Hall. destruct (Hall j Hj) as [Hp Hh].
  split; [done|]. split; [done|].
  assert (file_path j ∈ scan_for_new_files E cfg m (now c)) as Hscan.
  { eapply elem_of_sublist; [|exact Hsub]. by apply list_elem_of_fmap_2. }
  apply scan_not_queued in Hscan as [? ?]. done.
Qed.

End ScannerMore.

(** ** The confirmation loop at its edges *)

Section GateEdges.

Context (E : os_env) (cfg : settings).

Lemma count_positive_test (k : Z) :
  k < stability_check_count cfg → (k <? stability_check_count cfg) = true.
Proof. intros. by apply Z.ltb_lt. Qed.





(** X7: a negative sampling interval makes [time.sleep] raise inside the
    first check of a file that is there ([ValueError], or
    [OverflowError] for a length beyond what it can convert);
    [process_file] catches it: it answers [False], the job is marked
    failed and [files_failed] goes up by one, the external command not
    being started. *)
Theorem negative_interval_fails_job (fuel : nat) (job : ProcessingJob)
    (m : JavSPMonitor) (c : clock) (stat1 : stat_result) (n : Z) :
  stability_check_interval cfg < 0 →
  0 < stability_check_count cfg →
  fs_stat E (now (first_sample E c)) (file_path job) = Some stat1 →
  stats m !! "files_failed" = Some (JNum n) →
  is_file_stable E cfg (file_path job) c
  = (Raise (if stability_check_interval cfg <=? - sleep_limit
            then OverflowError else ValueError),
     first_sample E c)
  ∧ process_file E cfg (S fuel) job m c
    = Some (Ok false, set_status failed job,
            with_current None
              (with_stats (<["files_failed" := JNum (n + 1)]> (stats m)) m),
            first_sample E c).
Proof.
  intros Hitv Hcount Hstat Hn.
  assert (is_file_stable E cfg (file_path job) c
          = (Raise (if stability_check_interval cfg <=? - sleep_limit
                    then OverflowError else ValueError),
             first_sample E c))
    as Hcheck.
  { by rewrite is_file_stable_unfold, Hstat, (sleep_error_negative _ Hitv). }
  split; [done|].
  unfold process_file, process_file_enter. simpl.
  rewrite (count_positive_test 0 Hcount), Hcheck.
  by rewrite (record_failure_counted _ _ n).
Qed.

(** X28: a sampling interval of [sleep_limit] seconds or more makes
    [time.sleep] raise [OverflowError] inside the first check of a file
    that is there.  [is_file_stable] catches [OSError] only, so the
    exception leaves it; [process_file] catches it: it answers [False],
    the job is marked failed and [files_failed] goes up by one, the
    external command not being started. *)
Theorem oversized_interval_fails_job (fuel : nat) (job : ProcessingJob)
    (m : JavSPMonitor) (c : clock) (stat1 : stat_result) (n : Z) :
  sleep_limit ≤ stability_check_interval cfg →
  0 < stability_check_count cfg →
  fs_stat E (now (first_sample E c)) (file_path job) = Some stat1 →
  stats m !! "files_failed" = Some (JNum n) →
  is_file_stable E cfg (file_path job) c = (Raise OverflowError, first_sample E c)
  ∧ process_file E cfg (S fuel) job m c
    = Some (Ok false, set_status failed job,
            with_current None
              (with_stats (<["files_failed" := JNum (n + 1)]> (stats m)) m),
            first_sample E c).
Proof.
  intros Hitv Hcount Hstat Hn.
  assert (sleep_error (stability_check_interval cfg) = Some OverflowError) as Hsleep.
  { unfold sleep_error.
    assert ((sleep_limit <=? stability_check_interval cfg) = true) as ->
      by (by apply Z.leb_le).
    by rewrite orb_true_r. }
  assert (is_file_stable E cfg (file_path job) c
          = (Raise OverflowError, first_sample E c)) as Hcheck
    by (by rewrite is_file_stable_unfold, Hstat, Hsleep).
  split; [done|].
  unfold process_file, process_file_enter. simpl.
  rewrite (count_positive_test 0 Hcount), Hcheck.
  by rewrite (record_failure_counted _ _ n).
Qed.

(** X8: with a confirmation count of zero or less the loop is not
    entered: no sample is taken, no time goes by and the shutdown flag
    is not looked at; [process_file] goes straight on to the external
    command, whatever the state of the file. *)
Theorem no_confirmation_without_count (fuel : nat) (job : ProcessingJob)
    (m : JavSPMonitor) (c : clock) :
  stability_check_count cfg ≤ 0 →
  stability_loop E cfg fuel (file_path job) 0 c = Some (Ready, c)
  ∧ process_file E cfg fuel job m c = process_file E cfg 0 job m c
  ∧ (javsp E (now c) = InvocationRaises →
     process_file E cfg fuel job m c
     = Some (record_failure
               (if enable_hash_check cfg
                then set_hash (calculate_file_hash E cfg (file_path job) c)
                       (set_status processing job)
                else set_status processing job)
               (with_current (Some (set_status processing job)) m), c)).
Proof.
  intros Hcount.
  assert (∀ f, stability_loop E cfg f (file_path job) 0 c = Some (Ready, c)) as Hloop.
  { intros f.
    assert ((0 <? stability_check_count cfg) = false) as Hno by (apply Z.ltb_ge; lia).
    destruct f; simpl; by rewrite Hno. }
  split; [apply Hloop|]. split.
  - unfold process_file, process_file_enter. by rewrite !Hloop.
  - intros Hraise. unfold process_file, process_file_enter.
    by rewrite Hloop, Hraise.
Qed.

End GateEdges.



Lemma negative_interval_fails_job_witness :
  stability_check_interval negative_settings < 0
  ∧ process_file (steady_env (Exited 0 7000)) negative_settings 1 movie_job two_jobs epoch
    = Some (Ok false, set_status failed movie_job,
            with_current None
              (with_stats (<["files_failed" := JNum (0 + 1)]> (stats two_jobs)) two_jobs),
            first_sample (steady_env (Exited 0 7000)) epoch).
Proof.
  assert (stability_check_interval negative_settings < 0) as Hneg by (simpl; lia).
  split; [exact Hneg|].
  exact (proj2 (negative_interval_fails_job (steady_env (Exited 0 7000)) negative_settings
                  0 movie_job two_jobs epoch steady_stat 0 Hneg ltac:(simpl; lia)
                  eq_refl ltac:(vm_compute; reflexivity))).
Defined.

Lemma oversized_interval_fails_job_witness :
  sleep_limit ≤ stability_check_interval oversized_settings
  ∧ process_file (steady_env (Exited 0 7000)) oversized_settings 1 movie_job two_jobs epoch
    = Some (Ok false, set_status failed movie_job,
            with_current None
              (with_stats (<["files_failed" := JNum (0 + 1)]> (stats two_jobs)) two_jobs),
            first_sample (steady_env (Exited 0 7000)) epoch).
Proof.
  assert (sleep_limit ≤ stability_check_interval oversized_settings) as Hbig
    by (unfold sleep_limit; simpl; lia).
  split; [exact Hbig|].
  exact (proj2 (oversized_interval_fails_job (steady_env (Exited 0 7000))
                  oversized_settings 0 movie_job two_jobs epoch steady_stat 0 Hbig
                  ltac:(simpl; lia) eq_refl ltac:(vm_compute; reflexivity))).
Defined.

Lemma no_confirmation_without_count_witness :
  stability_check_count ungated_settings ≤ 0
  ∧ stability_loop stopping_env ungated_settings 0 movie 0 epoch = Some (Ready, epoch)
  ∧ process_file stopping_env ungated_settings 5 movie_job two_jobs epoch
    = process_file stopping_env ungated_settings 0 movie_job two_jobs epoch.
Proof.
  assert (stability_check_count ungated_settings ≤ 0) as H by (simpl; lia).
  split; [exact H|].
  destruct (no_confirmation_without_count stopping_env ungated_settings 5 movie_job
              two_jobs epoch H) as (_ & Hsame & _).
  destruct (no_confirmation_without_count stopping_env ungated_settings 0 movie_job
              two_jobs epoch H) as (Hloop & _ & _).
  split; [exact Hloop|exact Hsame].
Defined.

(** ** The worker's successful turn, and what holds along every run *)

Section WorkerMore.

Context (E : os_env) (cfg : settings).

(** X9: when the confirmation loop has passed the file, the external
    command exits 0 and the two counters are numbers, the job is marked
    completed, [files_processed] goes up by one, [total_processing_time]
    by the time the command took (its duration at least), no other
    counter moves, and the path joins the completed set; the turn of the
    worker drops the job from the queue and no later scan yields the
    path again. *)
Theorem zero_exit_completes_job (fuel : nat) (m : JavSPMonitor) (c c1 : clock)
    (i : nat) (job : ProcessingJob) (d : N) (n1 n2 : Z) :
  first_pending (processing_queue m) = Some (i, job) →
  stability_loop E cfg fuel (file_path job) 0 c = Some (Ready, c1) →
  javsp E (now c1) = Exited 0 d →
  stats m !! "files_processed" = Some (JNum n1) →
  stats m !! "total_processing_time" = Some (JNum n2) →
  ∃ job' m' c' mq,
    process_file E cfg fuel job m c = Some (Ok true, job', m', c')
    ∧ status job' = completed
    ∧ Z.of_N d ≤ now c' - now c1
    ∧ stats m' !! "files_processed" = Some (JNum (n1 + 1))
    ∧ stats m' !! "total_processing_time" = Some (JNum (n2 + (now c' - now c1)))
    ∧ (∀ key, key ≠ "files_processed" → key ≠ "total_processing_time" →
              stats m' !! key = stats m !! key)
    ∧ completed_files m' = {[ file_path job ]} ∪ completed_files m
    ∧ process_queue_iteration E cfg fuel m c = Some (Ok tt, mq, c')
    ∧ processing_queue mq = cleanup (delete i (processing_queue m))
    ∧ ∀ t, file_path job ∉ scan_for_new_files E cfg mq t.
Proof.
  intros Hfirst Hgate Hexit H1 H2.
  destruct (first_pending_Some _ _ _ Hfirst) as [Hi _].
  assert (∃ job2, file_path job2 = file_path job ∧
            process_file E cfg fuel job m c
            = Some (record_success job2
                      (now (elapse E {| now := now c1 + Z.of_N d; ops := ops c1 |})
                       - now c1)
                      (with_current (Some (set_status processing job)) m),
                    elapse E {| now := now c1 + Z.of_N d; ops := ops c1 |}))
    as (job2 & Hpath2 & Hrun).
  { unfold process_file, process_file_enter. rewrite Hgate, Hexit. simpl.
    eexists. split; [|reflexivity]. by destruct (enable_hash_check cfg). }
  rewrite (record_success_counted _ _ _ n1 n2) in Hrun by done.
  eexists _, _, _, _. split; [exact Hrun|].
  split; [done|]. split.
  { match goal with |- _ ≤ now (elapse E ?x) - _ => pose proof (elapse_now E x) end.
    simpl in *. lia. }
  split; [by simpl; rewrite lookup_insert_ne, lookup_insert_eq|].
  split; [by simpl; rewrite lookup_insert_eq|].
  split; [by intros key Hk1 Hk2; simpl; rewrite !lookup_insert_ne|].
  split; [by simpl; rewrite Hpath2|].
  split; [by rewrite (process_queue_iteration_job _ _ _ _ _ _ _ _ _ _ _ Hfirst Hrun)|].
  split.
  - simpl. apply cleanup_insert_done; [|done]. by eapply lookup_lt_Some.
  - intros t Hscan. apply scan_not_queued in Hscan as [_ Hnot].
    apply Hnot. simpl. rewrite Hpath2. set_solver.
Qed.

(** What [process_file] does to the completed set: it adds the path of
    its job when it answers [True], and nothing otherwise. *)
Lemma process_file_completed (fuel : nat) (job : ProcessingJob) (m : JavSPMonitor)
    (c : clock) r job' m' c' :
  process_file E cfg fuel job m c = Some (r, job', m', c') →
  completed_files m' = completed_files m
  ∨ (r = Ok true ∧ completed_files m' = {[ file_path job ]} ∪ completed_files m).
Proof.
  unfold process_file, process_file_enter.
  destruct (stability_loop E cfg fuel (file_path job) 0 c) as [[[] c1]|]; [| | |done].
  - set (job2 := if enable_hash_check cfg then _ else _).
    assert (file_path job2 = file_path job) as Hp.
    { subst job2. by destruct (enable_hash_check cfg). }
    destruct (javsp E (now c1)) as [rc d|]; [destruct (rc =? 0)|].
    + intros [= Heq <-]. unfold record_success in Heq.
      destruct (stats_add "files_processed" 1 _) as [s1|].
      * destruct (stats_add "total_processing_time" _ s1) as [s2|].
        -- injection Heq as <- <- <-. right. simpl. by rewrite Hp.
        -- apply record_failure_inv in Heq as (_ & _ & -> & _). by left.
      * apply record_failure_inv in Heq as (_ & _ & -> & _). by left.
    + intros [= Heq <-]. apply record_failure_inv in Heq as (_ & _ & -> & _). by left.
    + intros [= Heq <-]. apply record_failure_inv in Heq as (_ & _ & -> & _). by left.
  - intros [= <- <- <- <-]. by left.
  - intros [= Heq <-]. apply record_failure_inv in Heq as (_ & _ & -> & _). by left.
Qed.

Lemma add_to_queue_current (p : string) (m : JavSPMonitor) (c : clock) :
  current_job (add_to_queue E p m c).1 = current_job m.
Proof.
  unfold add_to_queue, os_stat.
  destruct (fs_stat _ _ _) as [st|]; [|done]. by destruct (fromtimestamp_ok E _).
Qed.

Lemma in_flight_step (s s' : system) :
  step E cfg s s' → in_flight s → in_flight s'.
Proof.
  unfold in_flight.
  destruct 1 as [ m w t | m p rest w c | m todo w t | m todo i job Hfirst
                 | m todo i job Hi | | | m todo i job fuel c c1 Hi Hgate
                 | | | | | | | | | | | | | ];
    simpl; try done;
    try (intros (job0 & Hq & Hst & Hcur); rewrite Hcur; simpl;
         exists job0; by auto);
    try (intros (job0 & Hq & Hst & Hcur); rewrite Hcur; simpl;
         eexists; split; [by rewrite list_lookup_alter_eq, Hq|done]).
  - rewrite add_to_queue_current, add_to_queue_queue.
    destruct (picked w) as [i|]; [|done].
    intros (job & Hi & Hrest). exists job. split; [|done].
    destruct (fs_stat E _ p); [|done].
    destruct (fromtimestamp_ok E _); [|done]. by apply lookup_app_l_Some.
  - intros Hcur. apply first_pending_Some in Hfirst as [Hi _].
    exists (set_status processing job). split; [|done].
    apply list_lookup_insert_eq. by eapply lookup_lt_Some.
  - intros (job0 & Hq & Hst & _). exists job. split; [done|].
    rewrite Hi in Hq. by injection Hq as ->.
  - intros (job0 & Hq & Hst & Hcur).
    destruct (enable_hash_check cfg); [|by exists job0].
    simpl. rewrite Hcur. simpl.
    eexists. split; [by rewrite list_lookup_alter_eq, Hq|done].
Qed.

(** X10: in every state the two threads reach, the monitor has a
    current job exactly from line 223 of [process_file] to its
    [finally] clause, and it is then the queue entry the worker picked:
    in status [processing] while the confirmation loop and the external
    command run, and already [completed] or [failed] between the write
    of the outcome and the [finally] clause.  So the [current_job]
    entry of the state document [save_state] builds from any such state
    is that entry as it stands (a job marked completed or failed
    included), and [null] when there is none. *)
Theorem current_job_is_the_picked_job (s : system) (t : Z) :
  reachable E cfg s →
  in_flight s
  ∧ jget "current_job" (state_document E (monitor s) t)
    = Some (match held (worker s) with
            | Some i => match processing_queue (monitor s) !! i with
                        | Some job => JObj (to_dict E job)
                        | None => JNull
                        end
            | None => JNull
            end).
Proof.
  intros (disk & m0 & Hload & Hreach).
  assert (in_flight s) as Hin.
  { eapply (rtc_ind_r (λ s, in_flight s)); [| |exact Hreach].
    - apply load_state_keeps in Hload as (_ & Hcur & _). unfold in_flight; simpl.
      by rewrite Hcur.
    - intros y z _ Hstep IH. by eapply in_flight_step. }
  split; [exact Hin|].
  unfold state_document, jget.
  do 3 (rewrite lookup_insert_ne by done). rewrite lookup_insert_eq.
  unfold in_flight in Hin.
  destruct (worker s) as [|i|i|i c|i pt|i pt|i|i|i|i| |]; simpl in *;
    try (by rewrite Hin);
    destruct Hin as (job & Hq & _ & ->); by rewrite ?Hq.
Qed.

(** X11: along every run the completed set only grows, and the table of
    counters never loses a key. *)
Theorem completed_set_only_grows (s s' : system) :
  rtc (step E cfg) s s' →
  completed_files (monitor s) ⊆ completed_files (monitor s')
  ∧ dom (stats (monitor s)) ⊆ dom (stats (monitor s')).
Proof.
  induction 1 as [s|s1 s2 s3 Hstep _ [IHc IHs]]; [done|].
  apply step_keeps in Hstep as [Hc Hs].
  split; by etransitivity.
Qed.

(** X12: jobs are processed in queue order: in every reachable state
    where the worker is between two turns, the job it picks next is the
    one at the head of the queue. *)
Theorem worker_picks_head_of_queue (s : system) :
  reachable E cfg s →
  worker s = Idle →
  first_pending (processing_queue (monitor s))
  = match processing_queue (monitor s) with
    | [] => None
    | job :: _ => Some (0%nat, job)
    end.
Proof.
  intros Hreach Hidle. apply others_pending_reachable in Hreach.
  unfold others_pending in Hreach. rewrite Hidle in Hreach.
  destruct (processing_queue (monitor s)) as [|job q]; [done|].
  assert (status job = pending) as Hjob by (by apply (Hreach 0%nat job)).
  unfold first_pending. simpl. by rewrite decide_True.
Qed.

End WorkerMore.

Lemma zero_exit_completes_job_witness :
  first_pending (processing_queue two_jobs) = Some (0%nat, movie_job)
  ∧ stability_loop (steady_env (Exited 0 7000)) sample_settings 3 movie 0 epoch
    = Some (Ready, {| now := 30009; ops := 9 |})
  ∧ ∃ job' m' c' mq,
      process_file (steady_env (Exited 0 7000)) sample_settings 3 movie_job two_jobs epoch
      = Some (Ok true, job', m', c')
      ∧ status job' = completed
      ∧ stats m' !! "files_processed" = Some (JNum 1)
      ∧ completed_files m' = {[ movie ]}
      ∧ process_queue_iteration (steady_env (Exited 0 7000)) sample_settings 3 two_jobs epoch
        = Some (Ok tt, mq, c')
      ∧ movie ∉ scan_for_new_files (steady_env (Exited 0 7000)) sample_settings mq 60000.
Proof.
  assert (first_pending (processing_queue two_jobs) = Some (0%nat, movie_job))
    as Hfirst by (vm_compute; reflexivity).
  assert (stability_loop (steady_env (Exited 0 7000)) sample_settings 3
            (file_path movie_job) 0 epoch
          = Some (Ready, {| now := 30009; ops := 9 |}))
    as Hgate by (vm_compute; reflexivity).
  split; [exact Hfirst|]. split; [exact Hgate|].
  destruct (zero_exit_completes_job (steady_env (Exited 0 7000)) sample_settings 3
              two_jobs epoch _ 0 movie_job 7000 0 0 Hfirst Hgate eq_refl
              ltac:(vm_compute; reflexivity) ltac:(vm_compute; reflexivity))
    as (job' & m' & c' & mq & Hrun & Hst & _ & Hn & _ & _ & Hdone & Hturn & _ & Hscan).
  exists job', m', c', mq.
  split; [exact Hrun|]. split; [exact Hst|]. split; [exact Hn|].
  split; [by rewrite Hdone; apply (right_id_L ∅ (∪))|].
  split; [exact Hturn|]. exact (Hscan 60000).
Defined.

(** The quiet machine with the worker on the first of two jobs: the
    external command has exited with 0 and the job is marked completed,
    the counters and the [finally] clause are still to come. *)
Lemma steady_marked_run :
  ∃ s t, reachable (steady_env (Exited 0 7000)) sample_settings s
         ∧ worker s = Marked 0 t
         ∧ queue_paths (monitor s) = [movie; trailer]
         ∧ status <$> processing_queue (monitor s) = [completed; pending].
Proof.
  eexists _, _. split.
  - exists None, initial_monitor. split; [done|]. unfold start_system.
    eapply rtc_l; [apply (step_scan _ _ _ _ 0)|].
    assert (scan_for_new_files (steady_env (Exited 0 7000)) sample_settings
              initial_monitor 0 = [movie; trailer]) as -> by (vm_compute; reflexivity).
    eapply rtc_l; [apply (step_add _ _ _ _ _ _ epoch)|].
    eapply rtc_l; [apply (step_add _ _ _ _ _ _ epoch)|].
    etransitivity; [apply steps_enter; reflexivity|].
    eapply rtc_l; [eapply (step_hash _ _ _ _ _ _ 3%nat epoch); reflexivity|].
    apply rtc_once. eapply step_exit_zero. reflexivity.
  - vm_compute. done.
Qed.

Lemma current_job_is_the_picked_job_witness :
  ∃ s t, reachable (steady_env (Exited 0 7000)) sample_settings s
         ∧ worker s = Marked 0 t
         ∧ in_flight s
         ∧ status <$> current_job (monitor s) = Some completed
         ∧ (doc ← jget "current_job"
                     (state_document (steady_env (Exited 0 7000)) (monitor s) 0);
            jget "status" doc) = Some (JStr "completed").
Proof.
  destruct steady_marked_run as (s & t & Hreach & Hmarked & _).
  exists s, t. split; [exact Hreach|]. split; [exact Hmarked|].
  destruct (current_job_is_the_picked_job (steady_env (Exited 0 7000)) sample_settings
              s 0 Hreach) as [Hin Hdoc].
  split; [exact Hin|].
  unfold in_flight in Hin. rewrite Hdoc, Hmarked in *. simpl in *.
  destruct Hin as (job & -> & Hst & ->). simpl. rewrite Hst. split; [done|].
  unfold to_dict, status_name.
  do 5 (rewrite lookup_insert_ne by done). by rewrite lookup_singleton_eq, Hst.
Defined.

Lemma completed_set_only_grows_witness :
  ∃ s1 s2,
    rtc (step (steady_env (Exited 0 7000)) sample_settings) s1 s2
    ∧ completed_files (monitor s1) = {[ "/app/input/older.avi" ]}
    ∧ "/app/input/older.avi" ∈ completed_files (monitor s2)
    ∧ movie ∈ completed_files (monitor s2).
Proof.
  pose (m1 := with_completed {[ "/app/input/older.avi" ]} two_jobs).
  pose (s1 := {| monitor := m1; new_files := []; worker := Idle |}).
  destruct (process_file (steady_env (Exited 0 7000)) sample_settings 3 movie_job m1 epoch)
    as [[[[r job'] m'] c']|] eqn:Hfile; [|discriminate Hfile].
  assert (rtc (step (steady_env (Exited 0 7000)) sample_settings) s1
            (after_turn [] 0 r job' m')) as Hrun.
  { apply (worker_turn_steps _ _ 3%nat m1 epoch [] 0%nat movie_job r job' m' c');
      [reflexivity|exact Hfile]. }
  exists s1, (after_turn [] 0 r job' m'). split; [exact Hrun|]. split; [reflexivity|].
  destruct (completed_set_only_grows (steady_env (Exited 0 7000)) sample_settings
              s1 _ Hrun) as [Hsub _].
  split; [apply Hsub; simpl; set_solver|].
  vm_compute in Hfile. injection Hfile as <- <- <- <-. simpl. set_solver.
Defined.

Lemma worker_picks_head_of_queue_witness :
  ∃ s, reachable (steady_env InvocationRaises) sample_settings s
       ∧ worker s = Idle
       ∧ queue_paths (monitor s) = [trailer]
       ∧ (λ r, (r.1, file_path r.2)) <$> first_pending (processing_queue (monitor s))
         = Some (0%nat, trailer).
Proof.
  destruct steady_run as (s & Hreach & Hidle & _ & Hpaths & _).
  exists s. split; [exact Hreach|]. split; [exact Hidle|]. split; [exact Hpaths|].
  rewrite (worker_picks_head_of_queue (steady_env InvocationRaises) sample_settings
             s Hreach Hidle).
  unfold queue_paths in Hpaths.
  destruct (processing_queue (monitor s)) as [|job q]; [discriminate Hpaths|].
  simpl in *. by injection Hpaths as -> _.
Defined.

(** ** More on the fingerprint *)

Section FingerprintMore.

(** X13: a file of at most 1 MB is fed to MD5 twice over: the first
    loop reads all of it, and the seek takes the second loop back to its
    start. *)
Theorem short_file_hashed_twice (content : list Byte.byte) :
  (length content ≤ max_read)%nat →
  hashed_bytes content = content ++ content.
Proof.
  intros Hshort. unfold hashed_bytes. rewrite hashed_bytes_upto_spec.
  rewrite take_ge by done.
  by replace (length content - max_read)%nat with 0%nat by lia.
Qed.

(** X14: the bytes hashed are twice the smaller of the file's length
    and 1 MB; and for two files of one length the hashed bytes are the
    same exactly when the files agree on their first and on their last
    megabyte. *)
Theorem hashed_bytes_same_iff (content1 content2 : list Byte.byte) :
  length content1 = length content2 →
  length (hashed_bytes content1) = (2 * (length content1 `min` max_read))%nat
  ∧ (hashed_bytes content1 = hashed_bytes content2 ↔
       take max_read content1 = take max_read content2
       ∧ drop (length content1 - max_read) content1
         = drop (length content2 - max_read) content2).
Proof.
  intros Hlen. unfold hashed_bytes. rewrite !hashed_bytes_upto_spec. split.
  - rewrite length_app, length_take, length_drop. lia.
  - split.
    + intros Heq. apply app_inj_1 in Heq; [done|].
      rewrite !length_take. lia.
    + by intros [-> ->].
Qed.

End FingerprintMore.

Lemma short_file_hashed_twice_witness :
  (length [Byte.x4d; Byte.x4b; Byte.x56] ≤ max_read)%nat
  ∧ hashed_bytes [Byte.x4d; Byte.x4b; Byte.x56]
    = [Byte.x4d; Byte.x4b; Byte.x56; Byte.x4d; Byte.x4b; Byte.x56].
Proof.
  assert (length [Byte.x4d; Byte.x4b; Byte.x56] ≤ max_read)%nat as H
    by (unfold max_read; simpl length; lia).
  split; [exact H|]. exact (short_file_hashed_twice _ H).
Defined.

Lemma hashed_bytes_same_iff_witness :
  length (sandwich Byte.x01) = length (sandwich Byte.x02)
  ∧ sandwich Byte.x01 ≠ sandwich Byte.x02
  ∧ hashed_bytes (sandwich Byte.x01) = hashed_bytes (sandwich Byte.x02)
  ∧ length (hashed_bytes (sandwich Byte.x01)) = (2 * max_read)%nat.
Proof.
  destruct (sandwich_of_parts max_read Byte.x01) as (Hlen1 & Hhead1 & Htail1).
  destruct (sandwich_of_parts max_read Byte.x02) as (Hlen2 & Hhead2 & Htail2).
  assert (length (sandwich Byte.x01) = length (sandwich Byte.x02)) as Hlen
    by (unfold sandwich; congruence).
  split; [exact Hlen|]. split.
  { unfold sandwich, sandwich_of. intros Heq.
    apply app_inv_head in Heq. discriminate Heq. }
  destruct (hashed_bytes_same_iff _ _ Hlen) as [Hsize Hiff].
  split.
  - apply Hiff. unfold sandwich. split; congruence.
  - rewrite Hsize. unfold sandwich. rewrite Hlen1. lia.
Defined.

(** ** More on the state store and the configuration *)

Section StoreMore.

(** X15: [load_state] never fails and never loses anything: without
    state file, with a file that is no JSON and with a document that is
    no mapping the monitor stays as it is.  For every state file the
    model covers (a mapping whose ["stats"] entry, when a list, has no
    element with a key that is no string and no two-key mapping, and
    whose ["completed_files"] entry, when a list, holds no number, bool
    or [null]) the load gives a monitor; and in whatever monitor a load
    gives, the queue and the current job are not touched, no counter is
    removed and the completed set has only grown. *)
Theorem load_state_never_loses (m : JavSPMonitor) :
  load_state m None = Some m
  ∧ load_state m (Some Garbled) = Some m
  ∧ (∀ j, is_mapping j = false → load_state m (Some (Document j)) = Some m)
  ∧ (∀ state,
       pairs_modelled (default (JObj ∅) (state !! "stats")) = true →
       members_modelled (default (JArr []) (state !! "completed_files")) = true →
       is_Some (load_state m (Some (Document (JObj state)))))
  ∧ (∀ disk m0,
       load_state m disk = Some m0 →
       processing_queue m0 = processing_queue m
       ∧ current_job m0 = current_job m
       ∧ dom (stats m) ⊆ dom (stats m0)
       ∧ completed_files m ⊆ completed_files m0).
Proof.
  split; [done|]. split; [done|]. split; [by intros []|]. split.
  - intros state Hstats Hdone. unfold load_state.
    pose proof (dict_update_modelled (stats m) _ Hstats) as Hd.
    destruct (dict_update _ _) as [s|s|]; [|done..].
    pose proof (set_update_modelled (completed_files (with_stats s m)) _ Hdone) as Hs.
    by destruct (set_update _ _).
  - intros disk m0. apply load_state_keeps.
Qed.

(** A list of pairs as ["stats"] entry is loaded pair by pair. *)
Example load_state_pairs_sample :
  (m0 ← load_state initial_monitor
          (Some (Document (JObj {[ "stats" := JArr [JArr [JStr "files_failed"; JNum 9]] ]})));
   stats m0 !! "files_failed") = Some (JNum 9).
Proof. vm_compute. done. Qed.

(** X16: loading a saved snapshot into a monitor that already holds
    something merges: the completed sets are united, a counter of the
    snapshot replaces the one in memory and the other entries in memory
    stay; the queue is not restored.  Loading the same snapshot once
    more changes nothing. *)
Theorem load_state_merges (E : os_env) (m0 m : JavSPMonitor) (t : Z) :
  ∃ m1,
    load_state m0 (Some (Document (state_document E m t))) = Some m1
    ∧ completed_files m1 = completed_files m0 ∪ completed_files m
    ∧ (∀ key, stats m1 !! key = match stats m !! key with
                                | Some v => Some v
                                | None => stats m0 !! key
                                end)
    ∧ processing_queue m1 = processing_queue m0
    ∧ load_state m1 (Some (Document (state_document E m t))) = Some m1.
Proof.
  eexists. split; [apply load_saved_state|]. split; [done|]. split; [|split; [done|]].
  - intros key. simpl. rewrite lookup_union. by destruct (stats m !! key), (stats m0 !! key).
  - rewrite load_saved_state. unfold with_completed, with_stats. simpl.
    rewrite (assoc_L (∪) (stats m)), (idemp_L (∪) (stats m)).
    by rewrite <- (assoc_L (∪) (completed_files m0)), (idemp_L (∪) (completed_files m)).
Qed.

(** X17: [load_state] stops at the first entry it cannot use and keeps
    what it has loaded so far: when ["stats"] is not iterable nothing is
    loaded, not even a valid completed list; when ["stats"] is a mapping
    and ["completed_files"] is not iterable, the counters are loaded and
    the completed set is not. *)
Theorem load_state_stops_at_bad_entry (m : JavSPMonitor) (state : gmap string json) :
  (∀ v, state !! "stats" = Some v → not_iterable v = true →
        load_state m (Some (Document (JObj state))) = Some m)
  ∧ (∀ s v, state !! "stats" = Some (JObj s) →
            state !! "completed_files" = Some v → not_iterable v = true →
            load_state m (Some (Document (JObj state)))
            = Some (with_stats (s ∪ stats m) m)).
Proof.
  split.
  - intros v Hv Hbad. unfold load_state. rewrite Hv. simpl.
    destruct v; try done; by destruct m.
  - intros s v Hs Hv Hbad. unfold load_state. rewrite Hs, Hv. simpl.
    destruct v; try done; by destruct m.
Qed.

(** X18: for every configuration file the model covers (no file, an
    unreadable file, and every document but a list with an element
    whose key is no string or that is a two-key mapping) [load_config]
    answers a configuration; and every configuration it answers holds
    every key of the built-in defaults, so no later [self.config[...]]
    of a built-in key raises [KeyError]; for a user mapping the keys are
    those of the defaults and those of the user. *)
Theorem load_config_keeps_default_keys (f : config_file) :
  (match f with
   | ConfigDocument j => pairs_modelled j = true
   | _ => True
   end → is_Some (load_config f))
  ∧ (∀ r, load_config f = Some r →
          dom default_config ⊆ dom r
          ∧ (∀ u, f = ConfigDocument (JObj u) → dom r = dom u ∪ dom default_config)).
Proof.
  unfold load_config, load_config_over. split.
  - destruct f as [| |j]; [done..|]. intros Hj.
    pose proof (dict_update_modelled default_config j Hj).
    by destruct (dict_update default_config j).
  - intros r Hload. split.
    + destruct f as [| |j]; try (by injection Hload as <-).
      pose proof (dict_update_dom default_config j) as Hdom.
      destruct (dict_update default_config j); [| |done]; by injection Hload as <-.
    + intros u ->. simpl in Hload. injection Hload as <-. by rewrite dom_union_L.
Qed.

Lemma update_pairs_written (pairs : list (string * json)) (tail : list json) :
  ∀ d, update_pairs d (pair_items pairs ++ tail)
       = update_pairs (write_pairs d pairs) tail.
Proof.
  induction pairs as [|[k v] pairs IH]; intros d; [done|]. simpl. apply IH.
Qed.

(** X30: a user document that is a list of [[key, value]] pairs with
    string keys is written into the defaults pair by pair, a later pair
    winning over an earlier one for the same key; and when an element
    that is no pair follows, the exception ends the update but the pairs
    written before it stay in the configuration [load_config] answers,
    the elements after it being ignored. *)
Theorem load_config_list_of_pairs (pairs : list (string * json)) :
  load_config (ConfigDocument (JArr (pair_items pairs)))
  = Some (write_pairs default_config pairs)
  ∧ (∀ bad rest,
       as_pair bad = NoPair →
       load_config (ConfigDocument (JArr (pair_items pairs ++ bad :: rest)))
       = Some (write_pairs default_config pairs))
  ∧ (∀ k, write_pairs default_config pairs !! k
          = match last (filter (λ kv, kv.1 = k) pairs) with
            | Some kv => Some kv.2
            | None => default_config !! k
            end).
Proof.
  split; [|split].
  - unfold load_config, load_config_over, dict_update.
    rewrite <- (app_nil_r (pair_items pairs)), update_pairs_written. done.
  - intros bad rest Hbad. unfold load_config, load_config_over, dict_update.
    rewrite update_pairs_written. simpl. by rewrite Hbad.
  - intros k. unfold write_pairs. generalize default_config as d.
    induction pairs as [|[k' v] pairs IH] using rev_ind; intros d; [done|].
    rewrite foldl_app, filter_app. simpl. rewrite filter_cons, filter_nil. simpl.
    destruct (decide (k' = k)) as [->|Hne].
    + by rewrite last_snoc, lookup_insert_eq.
    + rewrite app_nil_r, lookup_insert_ne by done. apply IH.
Qed.

End StoreMore.

Lemma load_state_stops_at_bad_entry_witness :
  half_good_state !! "completed_files" = Some (JNum 3)
  ∧ other_half_good_state !! "stats" = Some JNull
  ∧ load_state initial_monitor (Some (Document (JObj other_half_good_state)))
    = Some initial_monitor
  ∧ load_state initial_monitor (Some (Document (JObj half_good_state)))
    = Some (with_stats ({[ "files_processed" := JNum 7 ]} ∪ stats initial_monitor)
              initial_monitor).
Proof.
  assert (half_good_state !! "completed_files" = Some (JNum 3)) as H1
    by (vm_compute; reflexivity).
  assert (other_half_good_state !! "stats" = Some JNull) as H2
    by (vm_compute; reflexivity).
  split; [exact H1|]. split; [exact H2|]. split.
  - exact (proj1 (load_state_stops_at_bad_entry initial_monitor other_half_good_state)
             JNull H2 eq_refl).
  - refine (proj2 (load_state_stops_at_bad_entry initial_monitor half_good_state)
              _ (JNum 3) _ H1 eq_refl).
    vm_compute. reflexivity.
Defined.

Lemma load_config_keeps_default_keys_witness :
  ∃ r, load_config (ConfigDocument (JObj sample_user)) = Some r
       ∧ dom default_config ⊆ dom r
       ∧ "notify" ∈ dom r.
Proof.
  eexists. split; [reflexivity|].
  destruct (proj2 (load_config_keeps_default_keys (ConfigDocument (JObj sample_user)))
              _ eq_refl) as [Hsub Hdom].
  split; [exact Hsub|].
  rewrite (Hdom sample_user eq_refl). apply elem_of_union_l.
  unfold sample_user. rewrite !dom_insert_L. set_solver.
Defined.

(** ** Log retention and the loop of [run] *)

Section HousekeepingMore.

Lemma remove_older_than_sound (cutoff : option Z) (entries : list log_entry)
    (name : string) :
  name ∈ (remove_older_than cutoff entries).1 →
  ∃ e mtime timestamp,
    cutoff = Some timestamp
    ∧ e ∈ entries ∧ log_name e = name
    ∧ matches_log_pattern name = true
    ∧ log_mtime e = Some mtime ∧ mtime < timestamp
    ∧ log_unlink_ok e = true.
Proof.
  induction entries as [|e rest IH]; simpl; [by intros ?%elem_of_nil|].
  assert (name ∈ (remove_older_than cutoff rest).1 →
          ∃ e0 mtime timestamp,
            cutoff = Some timestamp
            ∧ e0 ∈ e :: rest ∧ log_name e0 = name
            ∧ matches_log_pattern name = true
            ∧ log_mtime e0 = Some mtime ∧ mtime < timestamp
            ∧ log_unlink_ok e0 = true)
    as Hrest.
  { intros (e0 & mtime & timestamp & Hcut & Hin & Hrest)%IH.
    exists e0, mtime, timestamp. split; [done|]. split; [by right|done]. }
  destruct (matches_log_pattern (log_name e)) eqn:Hmatch; [|done].
  destruct (log_mtime e) as [mtime|] eqn:Hmtime; [|by intros ?%elem_of_nil].
  destruct cutoff as [timestamp|]; [|by intros ?%elem_of_nil].
  destruct (mtime <? timestamp) eqn:Hold; [|done].
  destruct (log_unlink_ok e) eqn:Hunlink; [|by intros ?%elem_of_nil].
  destruct (remove_older_than (Some timestamp) rest) as [removed finished]. simpl in *.
  intros [->|Hin]%elem_of_cons; [|by apply Hrest].
  exists e, mtime, timestamp. apply Z.ltb_lt in Hold.
  split; [done|]. split; [by left|done].
Qed.

Lemma remove_older_than_complete (cutoff : option Z) (entries : list log_entry)
    (e : log_entry) :
  (remove_older_than cutoff entries).2 = true →
  e ∈ entries →
  matches_log_pattern (log_name e) = true →
  ∃ mtime timestamp,
    cutoff = Some timestamp
    ∧ log_mtime e = Some mtime
    ∧ (mtime < timestamp → log_name e ∈ (remove_older_than cutoff entries).1).
Proof.
  induction entries as [|e0 rest IH]; simpl; [by intros _ ?%elem_of_nil|].
  destruct (matches_log_pattern (log_name e0)) eqn:Hmatch.
  - destruct (log_mtime e0) as [mtime0|] eqn:Hmtime; [|done].
    destruct cutoff as [timestamp|]; [|done].
    destruct (mtime0 <? timestamp) eqn:Hold.
    + destruct (log_unlink_ok e0); [|done].
      destruct (remove_older_than (Some timestamp) rest) as [removed finished].
      simpl in *.
      intros Hfin [->|Hin]%elem_of_cons Hm.
      * exists mtime0, timestamp. split; [done|]. split; [done|]. intros _. by left.
      * destruct (IH Hfin Hin Hm) as (mtime & ts & [= <-] & ? & ?).
        exists mtime, timestamp. split; [done|]. split; [done|]. intros ?. right. auto.
    + intros Hfin [->|Hin]%elem_of_cons Hm; [|by apply IH].
      exists mtime0, timestamp. split; [done|]. split; [done|].
      apply Z.ltb_ge in Hold. lia.
  - intros Hfin [->|Hin]%elem_of_cons Hm; [congruence|by apply IH].
Qed.

(** X19: [cleanup_old_logs] removes only entries of the log directory
    whose name contains [".log"] and whose modification time is below
    the time stamp of the cutoff date (a name without [".log"], such as
    the state file, is never removed); when the pass runs to its end
    without exception it has removed every such entry; and when the
    cutoff date cannot be computed nothing is removed. *)
Theorem cleanup_old_logs_removes (cutoff : cutoff_date) (entries : list log_entry) :
  (∀ name, name ∈ (cleanup_old_logs cutoff entries).1 →
     ∃ e mtime timestamp,
       cutoff = CutoffDate (Some timestamp)
       ∧ e ∈ entries ∧ log_name e = name
       ∧ matches_log_pattern name = true
       ∧ log_mtime e = Some mtime
       ∧ mtime < timestamp
       ∧ log_unlink_ok e = true)
  ∧ ((cleanup_old_logs cutoff entries).2 = true →
     ∀ e, e ∈ entries → matches_log_pattern (log_name e) = true →
       ∃ mtime timestamp,
         cutoff = CutoffDate (Some timestamp)
         ∧ log_mtime e = Some mtime
         ∧ (mtime < timestamp →
            log_name e ∈ (cleanup_old_logs cutoff entries).1))
  ∧ cleanup_old_logs NoCutoffDate entries = ([], false)
  ∧ (cleanup_old_logs (CutoffDate None) entries).1 = [].
Proof.
  split; [|split; [|split; [done|]]].
  - intros name. destruct cutoff as [|ts]; simpl; [by intros ?%elem_of_nil|].
    intros (e & mtime & timestamp & -> & Hrest)%remove_older_than_sound.
    by exists e, mtime, timestamp.
  - destruct cutoff as [|ts]; simpl; [done|].
    intros Hfin e Hin Hm.
    destruct (remove_older_than_complete ts entries e Hfin Hin Hm)
      as (mtime & timestamp & -> & Hrest).
    by exists mtime, timestamp.
  - simpl. destruct (remove_older_than None entries) as [removed finished] eqn:Hrun.
    simpl. destruct removed as [|name removed]; [done|].
    assert (name ∈ (remove_older_than None entries).1) as Hin
      by (rewrite Hrun; left).
    by apply remove_older_than_sound in Hin as (? & ? & ? & ? & _).
Qed.

(** The pass over the sample directory stops at the log that cannot be
    removed: the old log listed after it stays. *)
Example cleanup_old_logs_sample :
  matches_log_pattern "monitor_state.json" = false
  ∧ cleanup_old_logs (CutoffDate (Some 95200000)) sample_logs
    = (["monitor.log.1"], false)
  ∧ cleanup_old_logs (CutoffDate (Some 95200000)) (take 3 sample_logs)
    = (["monitor.log.1"], true)
  ∧ cleanup_old_logs (CutoffDate None) sample_logs = ([], false).
Proof. vm_compute. done. Qed.

Context (E : os_env) (cfg : settings).

Lemma add_all_nil (m : JavSPMonitor) (c : clock) : add_all E [] m c = (m, c).
Proof. done. Qed.

(** X20: the head of a turn of [run]: the state file written holds the
    monitor as it is after the enqueueing; the completed set and every
    counter but ["last_activity"] are left alone; ["last_activity"] is
    stamped when the scan found something or the queue is not empty, and
    a turn that finds nothing with an empty queue changes nothing in
    memory (the file is rewritten all the same). *)
Theorem run_turn_head_effect (m : JavSPMonitor) (c : clock) (disk : option file_content) :
  ∃ m2 c1,
    run_turn_head E cfg m c WriteOk disk
    = (m2, Some (Document (state_document E m2 (now c1))), c1)
    ∧ processing_queue m2 = processing_queue (scan_and_enqueue E cfg m c).1
    ∧ completed_files m2 = completed_files m
    ∧ (∀ key, key ≠ "last_activity" → stats m2 !! key = stats m !! key)
    ∧ (scan_for_new_files E cfg m (now c) ≠ [] ∨ processing_queue m2 ≠ [] →
       stats m2 !! "last_activity" = Some (JStr (isoformat E (now c1))))
    ∧ (scan_for_new_files E cfg m (now c) = [] → processing_queue m = [] → m2 = m).
Proof.
  unfold run_turn_head, scan_and_enqueue.
  destruct (add_all_appends E (scan_for_new_files E cfg m (now c)) m c)
    as (added & Hq & _ & _ & Hdone & Hstats & _).
  destruct (add_all E (scan_for_new_files E cfg m (now c)) m c) as [m1 c1] eqn:Hadd.
  simpl in *.
  eexists _, c1. split; [reflexivity|].
  destruct (bool_decide (scan_for_new_files E cfg m (now c) = [])) eqn:Hscan;
    destruct (bool_decide (processing_queue m1 = [])) eqn:Hqueue; simpl.
  - apply bool_decide_eq_true in Hscan, Hqueue.
    split; [done|]. split; [done|]. split; [by intros; rewrite Hstats|].
    split; [by intros [?|?]|].
    intros _ Hempty. rewrite Hscan in Hadd. by injection Hadd as <- _.
  - apply bool_decide_eq_true in Hscan. apply bool_decide_eq_false in Hqueue.
    split; [done|]. split; [done|].
    split; [by intros; rewrite lookup_insert_ne, Hstats|].
    split; [by rewrite lookup_insert_eq|].
    intros _ Hempty. rewrite Hscan in Hadd. injection Hadd as <- _. done.
  - split; [done|]. split; [done|].
    split; [by intros; rewrite lookup_insert_ne, Hstats|].
    split; [by rewrite lookup_insert_eq|].
    apply bool_decide_eq_false in Hscan. done.
  - split; [done|]. split; [done|].
    split; [by intros; rewrite lookup_insert_ne, Hstats|].
    split; [by rewrite lookup_insert_eq|].
    apply bool_decide_eq_false in Hscan. done.
Qed.

End HousekeepingMore.

(** ** The recursive merge of the other scripts *)

Section MergeConfig.

Lemma merge_config_unfold (d u : gmap string json) :
  _merge_config d u = map_fold merge_visit d u.
Proof. reflexivity. Qed.

Lemma merge_visit_lookup (key : string) (value : json) (acc : gmap string json)
    (k : string) :
  merge_visit key value acc !! k
  = if decide (key = k) then Some (merged_value (acc !! key) value) else acc !! k.
Proof.
  unfold merge_visit, merged_value.
  destruct (acc !! key) as [[| | | | |nested]|] eqn:Hacc;
    try (rewrite lookup_insert; by destruct value).
  destruct value; by rewrite lookup_insert.
Qed.

Lemma merge_config_lookup_eq (d u : gmap string json) (k : string) :
  _merge_config d u !! k
  = match u !! k with
    | Some uv => Some (merged_value (d !! k) uv)
    | None => d !! k
    end.
Proof.
  rewrite merge_config_unfold. revert k.
  apply (map_fold_weak_ind
           (λ r (m : gmap string json),
              ∀ k, r !! k = match m !! k with
                            | Some uv => Some (merged_value (d !! k) uv)
                            | None => d !! k
                            end)).
  - intros k. by rewrite lookup_empty.
  - intros i x m r Hfresh IH k.
    rewrite merge_visit_lookup, lookup_insert.
    destruct (decide (i = k)) as [->|Hne]; [|apply IH].
    by rewrite IH, Hfresh.
Qed.

(** X21: [_merge_config] key by key: a key the user document does not
    hold keeps its default; where the default and the user's value are
    both mappings the result is their merge, one level down; in every
    other case the user's value replaces the default whole.  The keys of
    the result are those of both tables, and an empty user document
    changes nothing. *)
Theorem merge_config_lookup (d u : gmap string json) :
  (∀ k, _merge_config d u !! k
        = match u !! k with
          | Some uv =>
              Some (match d !! k, uv with
                    | Some (JObj nested), JObj uu => JObj (_merge_config nested uu)
                    | _, _ => uv
                    end)
          | None => d !! k
          end)
  ∧ dom (_merge_config d u) = dom d ∪ dom u
  ∧ _merge_config d ∅ = d.
Proof.
  split; [apply merge_config_lookup_eq|]. split.
  - apply set_eq. intros k. rewrite elem_of_union, !elem_of_dom.
    rewrite merge_config_lookup_eq.
    destruct (u !! k) as [uv|]; [|by intuition (try by apply is_Some_None in H)].
    split; [intros _; right; by eexists|by eexists].
  - apply map_eq. intros k. by rewrite merge_config_lookup_eq, lookup_empty.
Qed.

(** X22: where no default is a mapping, [_merge_config] is
    [dict.update]: on such defaults (the built-in ones of the smart
    monitor among them) the loader of the smart monitor and the loaders
    of the other two scripts give the same configuration. *)
Theorem merge_config_flat (d u : gmap string json) :
  flat d →
  _merge_config d u = u ∪ d
  ∧ load_config_over d (ConfigDocument (JObj u)) = Some (_merge_config d u).
Proof.
  intros Hflat.
  assert (_merge_config d u = u ∪ d) as Heq.
  { apply map_eq. intros k. rewrite merge_config_lookup_eq, lookup_union.
    destruct (u !! k) as [uv|] eqn:Hu; simpl; [|by destruct (d !! k)].
    destruct (d !! k) as [dv|] eqn:Hd; simpl; [|done].
    pose proof (Hflat k dv Hd). by destruct dv. }
  split; [exact Heq|]. simpl. by rewrite Heq.
Qed.

(** On the sample with a nested default the two loaders differ: the
    merge keeps the default's ["output"], the update drops it. *)
Example merge_config_nested_sample :
  (paths ← _merge_config nested_defaults nested_user !! "paths"; jget "output" paths)
  = Some (JStr "/out")
  ∧ (paths ← _merge_config nested_defaults nested_user !! "paths"; jget "input" paths)
    = Some (JStr "/data")
  ∧ (paths ← (nested_user ∪ nested_defaults) !! "paths"; jget "output" paths) = None.
Proof. vm_compute. done. Qed.

End MergeConfig.

Lemma merge_config_flat_witness :
  flat default_config
  ∧ _merge_config default_config sample_user = sample_user ∪ default_config
  ∧ load_config (ConfigDocument (JObj sample_user))
    = Some (_merge_config default_config sample_user).
Proof.
  split; [exact default_config_flat|].
  exact (merge_config_flat default_config sample_user default_config_flat).
Defined.

Section MergeIsOverlay.

Lemma depth_lookup (m : gmap string json) (k : string) (v : json) :
  m !! k = Some v → (depth v < depth (JObj m))%nat.
Proof.
  simpl. intros Hk. apply Nat.lt_succ_r. revert k v Hk.
  apply (map_fold_weak_ind
           (λ (r : nat) (m : gmap string json),
              ∀ k v, m !! k = Some v → (depth v ≤ r)%nat)).
  - intros k v. by rewrite lookup_empty.
  - intros i x m' r Hfresh IH k v. rewrite lookup_insert.
    destruct (decide (i = k)) as [->|Hne].
    + intros [= ->]. lia.
    + intros Hk. pose proof (IH k v Hk). lia.
Qed.

Lemma merge_config_overlay_upto (n : nat) :
  ∀ d u, (depth (JObj u) ≤ n)%nat → _merge_config d u = recursive_overlay d u.
Proof.
  induction n as [|n IH]; intros d u Hdepth; [simpl in Hdepth; lia|].
  apply map_eq. intros k. rewrite merge_config_lookup_eq.
  unfold recursive_overlay. rewrite lookup_union, map_lookup_imap.
  destruct (u !! k) as [uv|] eqn:Hu; [|by destruct (d !! k)].
  destruct (d !! k) as [dv|] eqn:Hd; simpl; [|done].
  change (Some (merged_value (Some dv) uv) = Some (overlay_value dv uv)).
  f_equal.
  destruct dv as [| | | | |nested]; try done.
  destruct uv as [| | | | |uu]; try done.
  simpl. f_equal. fold (recursive_overlay nested uu).
  apply IH. pose proof (depth_lookup _ _ _ Hu). lia.
Qed.

(** X23: at every depth, [_merge_config] leaves in [default] the
    overlay of the user document on the defaults: default entries the
    user does not mention stay, mappings met on both sides are overlaid
    in turn, every other user value replaces the default. *)
Theorem merge_config_is_recursive_overlay (d u : gmap string json) :
  _merge_config d u = recursive_overlay d u.
Proof. by apply (merge_config_overlay_upto (depth (JObj u))). Qed.

End MergeIsOverlay.

(** ** The readers of the state file *)

Section StateFileReaders.

Import HealthCheck.

Lemma existsb_status (checks : gmap string HealthStatus) (name : string) :
  existsb (λ h, String.eqb (status h) name) (map_to_list checks).*2 = true
  ↔ ∃ c h, checks !! c = Some h ∧ status h = name.
Proof.
  rewrite existsb_exists. split.
  - intros (h & Hin & Heq). apply String.eqb_eq in Heq.
    apply list_elem_of_In, list_elem_of_fmap in Hin as ([c h'] & -> & Hin).
    apply elem_of_map_to_list in Hin. by exists c, h'.
  - intros (c & h & Hc & Hst). exists h. split; [|by apply String.eqb_eq].
    apply list_elem_of_In, list_elem_of_fmap. exists (c, h). split; [done|].
    by apply elem_of_map_to_list.
Qed.

(** X24: [calculate_overall_status] answers ["critical"] exactly when a
    component is critical, ["warning"] exactly when none is critical and
    one is in warning, and ["healthy"] in every other case: with no
    component at all, and with components whose status is neither of the
    two (["unknown"] included). *)
Theorem overall_status_cases (checks : gmap string HealthStatus) :
  (calculate_overall_status checks = "critical"
   ↔ ∃ c h, checks !! c = Some h ∧ status h = "critical")
  ∧ (calculate_overall_status checks = "warning"
     ↔ (¬ ∃ c h, checks !! c = Some h ∧ status h = "critical")
       ∧ ∃ c h, checks !! c = Some h ∧ status h = "warning")
  ∧ (calculate_overall_status checks = "healthy"
     ↔ ∀ c h, checks !! c = Some h →
              status h ≠ "critical" ∧ status h ≠ "warning").
Proof.
  unfold calculate_overall_status.
  pose proof (existsb_status checks "critical") as Hcrit.
  pose proof (existsb_status checks "warning") as Hwarn.
  destruct (existsb (λ h, String.eqb (status h) "critical") _).
  - destruct Hcrit as [Hcrit _]. specialize (Hcrit eq_refl).
    split; [done|]. split.
    + split; [done|]. by intros [Hno _].
    + split; [done|]. intros Hall. destruct Hcrit as (c & h & Hch & Hst).
      by destruct (Hall c h Hch).
  - assert (¬ ∃ c h, checks !! c = Some h ∧ status h = "critical") as Hno.
    { intros Hex. apply Hcrit in Hex. done. }
    destruct (existsb (λ h, String.eqb (status h) "warning") _).
    + destruct Hwarn as [Hwarn _]. specialize (Hwarn eq_refl).
      split; [done|]. split; [done|].
      split; [done|]. intros Hall. destruct Hwarn as (c & h & Hch & Hst).
      by destruct (Hall c h Hch).
    + split; [done|]. split.
      * split; [done|]. intros [_ Hex]. apply Hwarn in Hex. done.
      * split; [|done]. intros _ c h Hch. split; intros Hst.
        -- apply Hno. by exists c, h.
        -- assert (false = true); [|done]. apply Hwarn. by exists c, h.
Qed.

Example overall_status_sample :
  calculate_overall_status sample_checks = "healthy"
  ∧ calculate_overall_status ∅ = "healthy".
Proof. vm_compute. done. Qed.

Context (E : os_env).

Lemma state_document_queue_length (m : JavSPMonitor) (t : Z) :
  jget "queue_length" (state_document E m t)
  = Some (JNum (Z.of_nat (length (processing_queue m))))
  ∧ jget "last_activity" (state_document E m t) = None.
Proof.
  unfold state_document, jget. split.
  - do 2 (rewrite lookup_insert_ne by done). by rewrite lookup_insert_eq.
  - do 4 (rewrite lookup_insert_ne by done). by rewrite lookup_singleton_ne.
Qed.

(** X25: the health check on a state file the monitor wrote: the
    [processing_queue] detail is the length of the queue; a backlog is
    reported above 50 jobs and a severe one above 100; and the check for
    long inactivity is never made, because it looks for
    ["last_activity"] at the top of the document while the monitor
    writes it inside ["stats"]. *)
Theorem health_check_on_saved_state (parse_time : string → option Z) (t tm : Z)
    (m : JavSPMonitor) :
  check_state_file parse_time t (Some (Document (state_document E m tm)))
  = (if 100 <? Z.of_nat (length (processing_queue m))
     then [QueueBacklogSevere (JNum (Z.of_nat (length (processing_queue m))))]
     else if 50 <? Z.of_nat (length (processing_queue m))
          then [QueueBacklog (JNum (Z.of_nat (length (processing_queue m))))]
          else [],
     Some (JNum (Z.of_nat (length (processing_queue m))))).
Proof.
  destruct (state_document_queue_length m tm) as [Hlen Hact].
  unfold state_document, jget in Hlen, Hact.
  unfold check_state_file, state_document, check_last_activity.
  rewrite Hlen, Hact. simpl.
  destruct (100 <? _); [done|]. by destruct (50 <? _).
Qed.

(** X26: the queue metric of the system monitor on a state file the
    monitor wrote: the value is the length of the queue, the status is
    ["critical"] from the critical threshold on, ["warning"] from the
    warning threshold on and below the critical one, ["normal"] below
    both, and an alert is raised exactly when the status is not
    ["normal"]; with a critical threshold at or below the warning one
    the status is never ["warning"]. *)
Theorem queue_metric_on_saved_state (threshold_warning threshold_critical tm : Z)
    (m : JavSPMonitor) :
  SystemMonitor.check_queue_metric threshold_warning threshold_critical
    (Some (Document (state_document E m tm)))
  = Some (JNum (Z.of_nat (length (processing_queue m))),
          (if threshold_critical <=? Z.of_nat (length (processing_queue m))
           then "critical"
           else if threshold_warning <=? Z.of_nat (length (processing_queue m))
                then "warning" else "normal"),
          (threshold_critical <=? Z.of_nat (length (processing_queue m)))
          || (threshold_warning <=? Z.of_nat (length (processing_queue m))))
  ∧ (threshold_critical ≤ threshold_warning →
     ∀ v alert,
       SystemMonitor.check_queue_metric threshold_warning threshold_critical
         (Some (Document (state_document E m tm))) ≠ Some (v, "warning", alert)).
Proof.
  destruct (state_document_queue_length m tm) as [Hlen _].
  unfold state_document, jget in Hlen.
  assert (SystemMonitor.check_queue_metric threshold_warning threshold_critical
            (Some (Document (state_document E m tm)))
          = Some (JNum (Z.of_nat (length (processing_queue m))),
                  (if threshold_critical <=? Z.of_nat (length (processing_queue m))
                   then "critical"
                   else if threshold_warning <=? Z.of_nat (length (processing_queue m))
                        then "warning" else "normal"),
                  (threshold_critical <=? Z.of_nat (length (processing_queue m)))
                  || (threshold_warning <=? Z.of_nat (length (processing_queue m)))))
    as Heq.
  { unfold SystemMonitor.check_queue_metric, SystemMonitor.queue_status, state_document.
    rewrite Hlen. simpl.
    destruct (threshold_critical <=? _); [done|]. by destruct (threshold_warning <=? _). }
  split; [exact Heq|].
  intros Hle v alert. rewrite Heq.
  destruct (threshold_critical <=? _) eqn:Hc; [by intros [= _ ? _]|].
  destruct (threshold_warning <=? _) eqn:Hw; [|by intros [= _ ? _]].
  apply Z.leb_gt in Hc. apply Z.leb_le in Hw. lia.
Qed.

End StateFileReaders.

(** ** A fresh start *)

Section FreshStart.

Context (E : os_env) (cfg : settings).

Lemma stats_add_numeric (key : string) (n : Z) (m : JavSPMonitor)
    (s : gmap string json) :
  key = "files_processed" ∧ n = 1
  ∨ key = "files_failed" ∧ n = 1
  ∨ key = "total_processing_time" →
  counters_numeric m →
  stats_add key n (stats m) = Some s →
  counters_numeric (with_stats s m).
Proof.
  intros Hkey (np & nf & nt & Hp & Hf & Ht & ? & ?) Hadd.
  destruct Hkey as [[-> ->]|[[-> ->]| ->]].
  - rewrite (stats_add_num _ _ _ _ Hp) in Hadd. injection Hadd as <-.
    exists (np + 1), nf, nt. simpl.
    rewrite lookup_insert_eq, !lookup_insert_ne by done. repeat split; try done; lia.
  - rewrite (stats_add_num _ _ _ _ Hf) in Hadd. injection Hadd as <-.
    exists np, (nf + 1), nt. simpl.
    rewrite lookup_insert_eq, !lookup_insert_ne by done. repeat split; try done; lia.
  - rewrite (stats_add_num _ _ _ _ Ht) in Hadd. injection Hadd as <-.
    exists np, nf, (nt + n). simpl.
    rewrite lookup_insert_eq, !lookup_insert_ne by done. repeat split; try done; lia.
Qed.

Lemma sound_step (s s' : system) :
  step E cfg s s' → sound s → sound s'.
Proof.
  unfold sound.
  destruct 1 as [ m w t | m p rest w c | m todo w t |  |  |  |  |  |  |  | 
                 | m todo i t s Hadd |  | m todo i t s Hadd |  |  | m todo i s Hadd | m todo i Hadd |  |  |  ];
    simpl; intros (Hnum & Hend & Hraise); try done;
    try match goal with
        | |- context [enable_hash_check cfg] =>
            by destruct (enable_hash_check cfg)
        end.
  - split; [|done]. unfold counters_numeric.
    by rewrite (proj2 (add_to_queue_rest E p m c)).
  - split; [|done]. destruct Hnum as (np & nf & nt & ? & ? & ? & ?).
    exists np, nf, nt. simpl. by rewrite !lookup_insert_ne.
  - split; [|done]. eapply stats_add_numeric; [|done..]. by left.
  - split; [|done]. eapply stats_add_numeric; [|done..]. by right; right.
  - split; [|done]. eapply stats_add_numeric; [|done..]. by right; left.
  - destruct Hnum as (np & nf & nt & _ & Hf & _).
    by rewrite (stats_add_num _ _ _ _ Hf) in Hadd.
  - by destruct (Hraise i).
Qed.

(** X27: started without state file, the monitor keeps [files_processed]
    and [files_failed] non-negative integers and
    [total_processing_time] a number in every state it reaches, so no
    increment of a counter raises and the worker thread is never ended
    by an exception. *)
Theorem fresh_start_keeps_counters (s : system) :
  rtc (step E cfg) (start_system initial_monitor) s →
  counters_numeric (monitor s)
  ∧ worker s ≠ Ended
  ∧ ∀ i, worker s ≠ Raising i.
Proof.
  intros Hreach.
  eapply (rtc_ind_r (λ s, sound s)); [| |exact Hreach].
  - split; [|done]. exists 0, 0, 0. by vm_compute.
  - intros y z _ Hstep IH. by eapply sound_step.
Qed.

End FreshStart.

Lemma fresh_start_keeps_counters_witness :
  ∃ s, rtc (step (steady_env InvocationRaises) sample_settings)
         (start_system initial_monitor) s
       ∧ stats (monitor s) !! "files_failed" = Some (JNum 1)
       ∧ counters_numeric (monitor s)
       ∧ worker s ≠ Ended.
Proof.
  assert (∃ s, rtc (step (steady_env InvocationRaises) sample_settings)
                 (start_system initial_monitor) s
               ∧ stats (monitor s) !! "files_failed" = Some (JNum 1))
    as (s & Hrun & Hfailed).
  { eexists. split.
    - unfold start_system.
      eapply rtc_l; [apply (step_scan _ _ _ _ 0)|].
      assert (scan_for_new_files (steady_env InvocationRaises) sample_settings
                initial_monitor 0 = [movie; trailer]) as -> by (vm_compute; reflexivity).
      eapply rtc_l; [apply (step_add _ _ _ _ _ _ epoch)|].
      eapply rtc_l; [apply (step_add _ _ _ _ _ _ epoch)|].
      eapply (worker_turn_steps _ _ 3%nat _ epoch); reflexivity.
    - vm_compute. reflexivity. }
  exists s. split; [exact Hrun|]. split; [exact Hfailed|].
  destruct (fresh_start_keeps_counters (steady_env InvocationRaises) sample_settings
              s Hrun) as (Hnum & Hend & _).
  split; [exact Hnum|exact Hend].
Defined.
